(** * Shape descriptors of a voxel mask: [radiomics/shape.py]

    A shallow embedding of the class [RadiomicsShape] and of the parts of
    numpy and SimpleITK it calls, followed by the properties of its
    feature functions. *)

From Stdlib Require Import ZArith List Bool Arith Lia Reals Machin Lra Permutation.
Import ListNotations.

(** ** numpy: the integer arrays behind [maskArray] *)

Module Numpy.

Local Open Scope Z_scope.

(** Element types of an integer array as [sitk.GetArrayFromImage] delivers
    them: [int8] .. [int64] are [Int 8] .. [Int 64], [uint8] .. [uint64] are
    [UInt 8] .. [UInt 64]. *)
Inductive dtype : Type :=
| Int (bits : Z)
| UInt (bits : Z).

Definition bits_of (t : dtype) : Z :=
  match t with Int w => w | UInt w => w end.

(** Fixed-width integer arithmetic wraps around: a result is reduced into
    [[0, 2^w)] for an unsigned type and into [[-2^(w-1), 2^(w-1))] for a
    signed one. *)
Definition wrap (t : dtype) (v : Z) : Z :=
  match t with
  | UInt w => v mod 2 ^ w
  | Int w => (v + 2 ^ (w - 1)) mod 2 ^ w - 2 ^ (w - 1)
  end.

(** [numpy.sum] accumulates an integer array in the platform integer (64
    bits) of the same signedness when the element type is narrower. *)
Definition sum_dtype (t : dtype) : dtype :=
  match t with
  | Int w => Int (Z.max w 64)
  | UInt w => UInt (Z.max w 64)
  end.

Definition index : Type := (nat * nat * nat)%type.

(** A 3-D array: element type, shape [(D, H, W)] and the element stored at
    each index [(k, j, i)]. *)
Record ndarray : Type := mk_ndarray
  { dtype_of : dtype;
    shape : index;
    item : index -> Z }.

Definition in_bounds (sh : index) (ix : index) : Prop :=
  let '(d, h, w) := sh in
  let '(k, j, i) := ix in
  (k < d)%nat /\ (j < h)%nat /\ (i < w)%nat.

Definition in_boundsb (sh : index) (ix : index) : bool :=
  let '(d, h, w) := sh in
  let '(k, j, i) := ix in
  (k <? d)%nat && (j <? h)%nat && (i <? w)%nat.

(** All indices of a shape, last axis fastest (C order). *)
Definition indices (sh : index) : list index :=
  let '(d, h, w) := sh in
  flat_map (fun k =>
    flat_map (fun j => map (fun i => (k, j, i)) (seq 0 w)) (seq 0 h))
    (seq 0 d).

Definition size (a : ndarray) : nat :=
  let '(d, h, w) := shape a in (d * h * w)%nat.

(** [a.ravel()]: the elements in storage order. *)
Definition ravel (a : ndarray) : list Z :=
  map (item a) (indices (shape a)).

(** [numpy.array(l, dtype=t)] for a nested list [l]. *)
Definition array (t : dtype) (l : list (list (list Z))) : ndarray :=
  {| dtype_of := t;
     shape := (length l, length (hd [] l), length (hd [] (hd [] l)));
     item := fun '(k, j, i) => nth i (nth j (nth k l []) []) 0 |}.

Inductive axis : Type := Axis0 | Axis1 | Axis2.

(** The shape that remains when one position is cut off along [ax]. *)
Definition shorten (ax : axis) (sh : index) : index :=
  let '(d, h, w) := sh in
  match ax with
  | Axis0 => (Nat.pred d, h, w)
  | Axis1 => (d, Nat.pred h, w)
  | Axis2 => (d, h, Nat.pred w)
  end.

(** The neighbour one step further along [ax]. *)
Definition next (ax : axis) (ix : index) : index :=
  let '(k, j, i) := ix in
  match ax with
  | Axis0 => (S k, j, i)
  | Axis1 => (k, S j, i)
  | Axis2 => (k, j, S i)
  end.

(** A view of [a]: shape [sh], element [ix] read from index [src ix] of
    [a]. *)
Definition view (sh : index) (src : index -> index) (a : ndarray) : ndarray :=
  {| dtype_of := dtype_of a;
     shape := sh;
     item := fun ix => item a (src ix) |}.

(** [a[1:]] along [ax] (e.g. [a[:,:,1:]] for [Axis2]). *)
Definition from_second (ax : axis) (a : ndarray) : ndarray :=
  view (shorten ax (shape a)) (next ax) a.

(** [a[:-1]] along [ax] (e.g. [a[:,:,:-1]] for [Axis2]). *)
Definition but_last (ax : axis) (a : ndarray) : ndarray :=
  view (shorten ax (shape a)) (fun ix => ix) a.

(** [a - b] for two arrays of one shape and element type; the result has
    that type, so each difference wraps. *)
Definition subtract (a b : ndarray) : ndarray :=
  {| dtype_of := dtype_of a;
     shape := shape a;
     item := fun ix => wrap (dtype_of a) (item a ix - item b ix) |}.

(** [numpy.abs(a)]: element-wise, in the element type. *)
Definition abs (a : ndarray) : ndarray :=
  {| dtype_of := dtype_of a;
     shape := shape a;
     item := fun ix => wrap (dtype_of a) (Z.abs (item a ix)) |}.

Definition list_sum (l : list Z) : Z := fold_right Z.add 0 l.

(** [numpy.sum(a)]: the elements are added one by one in the accumulator
    type, each addition wrapping. *)
Definition sum (a : ndarray) : Z :=
  fold_left (fun acc v => wrap (sum_dtype (dtype_of a)) (acc + v))
            (ravel a) 0.

(** [numpy.where(a)]: the indices of the non-zero elements, as three
    parallel index arrays. *)
Definition nonzero_indices (a : ndarray) : list index :=
  filter (fun ix => negb (item a ix =? 0)) (indices (shape a)).

Definition where_ (a : ndarray) : list nat * list nat * list nat :=
  let l := nonzero_indices a in
  (map (fun '(k, _, _) => k) l,
   map (fun '(_, j, _) => j) l,
   map (fun '(_, _, i) => i) l).

End Numpy.

(** ** SimpleITK: padding *)

Module Sitk.

Import Numpy.

(** [ConstantPadImageFilter] with lower bound [lo], upper bound [hi] and
    its default constant 0, seen through [GetArrayFromImage]: the bounds are
    given per array axis. *)
Definition ConstantPadImageFilter (lo hi : index) (a : ndarray) : ndarray :=
  let '(d, h, w) := shape a in
  let '(lk, lj, li) := lo in
  let '(uk, uj, ui) := hi in
  {| dtype_of := dtype_of a;
     shape := (lk + d + uk, lj + h + uj, li + w + ui)%nat;
     item := fun '(k, j, i) =>
       if in_boundsb (d, h, w) (k - lk, j - lj, i - li)%nat
          && (lk <=? k)%nat && (lj <=? j)%nat && (li <=? i)%nat
       then item a (k - lk, j - lj, i - li)%nat
       else 0%Z |}.

End Sitk.

(** ** Python and numpy floating-point scalars

    A finite double is idealised as the real number it stands for (no
    rounding, no overflow, zero unsigned); the special values are kept, so
    that what a division by zero yields can be stated. *)

Module Float.

Local Open Scope R_scope.

Inductive float64 : Type :=
| Finite (r : R)
| PosInf
| NegInf
| NaN.

(** A scalar is a Python [float] or a [numpy.float64]; the two differ in
    how they treat a zero divisor. *)
Inductive kind : Type := Python | Numpy64.

Record num : Type := Num { kind_of : kind; value : float64 }.

Inductive exn : Type := ZeroDivisionError | ValueError.

Inductive result (A : Type) : Type :=
| Ok (a : A)
| Raise (e : exn).

Arguments Ok {A} a.
Arguments Raise {A} e.

Definition bind {A B : Type} (m : result A) (f : A -> result B) : result B :=
  match m with
  | Ok a => f a
  | Raise e => Raise e
  end.

Notation "x <- m ;; k" := (bind m (fun x => k))
  (at level 61, m at next level, right associativity).

Definition inf (negative : bool) : float64 :=
  if negative then NegInf else PosInf.

Definition is_neg (x : float64) : bool :=
  match x with
  | Finite r => if Rlt_dec r 0 then true else false
  | NegInf => true
  | _ => false
  end.

Definition is_zero (x : float64) : bool :=
  match x with
  | Finite r => if Req_EM_T r 0 then true else false
  | _ => false
  end.

Definition is_finite (x : float64) : bool :=
  match x with Finite _ => true | _ => false end.

Definition fadd (x y : float64) : float64 :=
  match x, y with
  | NaN, _ | _, NaN => NaN
  | Finite a, Finite b => Finite (a + b)
  | Finite _, _ => y
  | _, Finite _ => x
  | PosInf, PosInf => PosInf
  | NegInf, NegInf => NegInf
  | _, _ => NaN
  end.

Definition fmul (x y : float64) : float64 :=
  match x, y with
  | NaN, _ | _, NaN => NaN
  | Finite a, Finite b => Finite (a * b)
  | _, _ =>
      if is_zero x || is_zero y then NaN
      else inf (xorb (is_neg x) (is_neg y))
  end.

(** IEEE division: [0/0] and [inf/inf] are NaN, a non-zero number over
    zero is an infinity. *)
Definition fdiv (x y : float64) : float64 :=
  match x, y with
  | NaN, _ | _, NaN => NaN
  | Finite a, Finite b =>
      if Req_EM_T b 0
      then (if Req_EM_T a 0 then NaN else inf (is_neg x))
      else Finite (a / b)
  | Finite _, _ => Finite 0
  | _, Finite _ => inf (xorb (is_neg x) (is_neg y))
  | _, _ => NaN
  end.

Definition is_integer (b : R) : bool :=
  if Req_EM_T b (IZR (Int_part b)) then true else false.

Definition is_odd_integer (b : R) : bool :=
  is_integer b && Z.odd (Int_part b).

(** The C library's [pow] on finite operands. *)
Definition finite_pow (a b : R) : float64 :=
  if Req_EM_T b 0 then Finite 1
  else if Rlt_dec 0 a then Finite (Rpower a b)
  else if Req_EM_T a 0 then (if Rlt_dec 0 b then Finite 0 else PosInf)
  else if is_integer b then Finite (powerRZ a (Int_part b))
  else NaN.

Definition fpow (x y : float64) : float64 :=
  match x, y with
  | Finite a, Finite b => finite_pow a b
  | _, Finite b =>
      if Req_EM_T b 0 then Finite 1
      else match x with
           | PosInf => if Rlt_dec b 0 then Finite 0 else PosInf
           | NegInf =>
               if Rlt_dec b 0 then Finite 0
               else if is_odd_integer b then NegInf else PosInf
           | _ => NaN
           end
  | Finite a, NaN => if Req_EM_T a 1 then Finite 1 else NaN
  | Finite a, PosInf =>
      if Req_EM_T (Rabs a) 1 then Finite 1
      else if Rlt_dec (Rabs a) 1 then Finite 0 else PosInf
  | Finite a, NegInf =>
      if Req_EM_T (Rabs a) 1 then Finite 1
      else if Rlt_dec (Rabs a) 1 then PosInf else Finite 0
  | NaN, _ => NaN
  | _, NaN => NaN
  | _, PosInf => PosInf
  | _, NegInf => Finite 0
  end.

Definition fsqrt (x : float64) : float64 :=
  match x with
  | Finite a => if Rlt_dec a 0 then NaN else Finite (sqrt a)
  | PosInf => PosInf
  | _ => NaN
  end.

(** An operation on two scalars is carried out by numpy as soon as one of
    them is a numpy scalar ([numpy.float64] subclasses [float] and
    overrides the reflected operators, so it also wins as right operand). *)
Definition result_kind (a b : num) : kind :=
  match kind_of a, kind_of b with
  | Python, Python => Python
  | _, _ => Numpy64
  end.

Definition add (a b : num) : num :=
  Num (result_kind a b) (fadd (value a) (value b)).

Definition mul (a b : num) : num :=
  Num (result_kind a b) (fmul (value a) (value b)).

(** [a / b]: Python raises on a zero divisor, numpy returns the IEEE
    result (and only warns). *)
Definition div (a b : num) : result num :=
  match result_kind a b with
  | Python =>
      if is_zero (value b) then Raise ZeroDivisionError
      else Ok (Num Python (fdiv (value a) (value b)))
  | Numpy64 => Ok (Num Numpy64 (fdiv (value a) (value b)))
  end.

(** [a ** b]: Python 2 raises for zero to a negative power and for a
    negative number to a fractional power, numpy returns the IEEE result.
    Python also raises [OverflowError] when the result of a finite power
    is beyond the largest double; as finite numbers are unbounded reals
    here, that case is not represented, and what is proved of a Python
    power holds as long as its result is in range. *)
Definition pow (a b : num) : result num :=
  match result_kind a b with
  | Python =>
      match value a, value b with
      | Finite x, Finite y =>
          if Req_EM_T x 0 then
            (if Rlt_dec y 0 then Raise ZeroDivisionError
             else Ok (Num Python (finite_pow x y)))
          else if Rlt_dec x 0 then
            (if is_integer y then Ok (Num Python (finite_pow x y))
             else Raise ValueError)
          else Ok (Num Python (finite_pow x y))
      | x, y => Ok (Num Python (fpow x y))
      end
  | Numpy64 => Ok (Num Numpy64 (fpow (value a) (value b)))
  end.

(** [numpy.sqrt(a)] of a scalar. *)
Definition np_sqrt (a : num) : num :=
  Num Numpy64 (fsqrt (value a)).

(** A Python float literal or a finite Python float. *)
Definition py (r : R) : num := Num Python (Finite r).

(** A Python [int] meeting a float is converted to it. *)
Definition py_int (n : Z) : num := Num Python (Finite (IZR n)).

(** A numpy integer scalar (the result of [numpy.sum]) meeting a float
    becomes a [numpy.float64]. *)
Definition np_int (n : Z) : num := Num Numpy64 (Finite (IZR n)).

(** [numpy.pi], a Python float. *)
Definition pi : num := py PI.

End Float.

(** ** The class [RadiomicsShape] *)

Module Shape.

Import Numpy Float.

Local Open Scope R_scope.

(** The attributes of an instance.  [targetVoxelArray] and
    [matrixCoordinates] are set by the base class. *)
Record RadiomicsShape : Type := mk_RadiomicsShape
  { pixelSpacing : R * R * R;
    cubicMMPerVoxel : num;
    maskArray : ndarray;
    targetVoxelArray : list Z;
    matrixCoordinates : list nat * list nat * list nat;
    Volume : num;
    SurfaceArea : num }.

Definition set_Volume (self : RadiomicsShape) (v : num) : RadiomicsShape :=
  {| pixelSpacing := pixelSpacing self;
     cubicMMPerVoxel := cubicMMPerVoxel self;
     maskArray := maskArray self;
     targetVoxelArray := targetVoxelArray self;
     matrixCoordinates := matrixCoordinates self;
     Volume := v;
     SurfaceArea := SurfaceArea self |}.

Definition set_SurfaceArea (self : RadiomicsShape) (v : num) : RadiomicsShape :=
  {| pixelSpacing := pixelSpacing self;
     cubicMMPerVoxel := cubicMMPerVoxel self;
     maskArray := maskArray self;
     targetVoxelArray := targetVoxelArray self;
     matrixCoordinates := matrixCoordinates self;
     Volume := Volume self;
     SurfaceArea := v |}.

Definition getVolumeFeatureValue (self : RadiomicsShape) : num :=
  mul (py_int (Z.of_nat (length (targetVoxelArray self))))
      (cubicMMPerVoxel self).

(** The face count along one axis:
    [numpy.sum(numpy.abs(maskArray[1:] - maskArray[:-1]))]. *)
Definition surf (ax : axis) (maskArray : ndarray) : Z :=
  Numpy.sum
    (Numpy.abs (subtract (from_second ax maskArray) (but_last ax maskArray))).

Definition getSurfaceAreaFeatureValue (self : RadiomicsShape) : num :=
  let '(x, y, z) := pixelSpacing self in
  let xz := mul (py x) (py z) in
  let yz := mul (py y) (py z) in
  let xy := mul (py x) (py y) in
  let surf_x := surf Axis2 (maskArray self) in
  let surf_y := surf Axis1 (maskArray self) in
  let surf_z := surf Axis0 (maskArray self) in
  let surfaceArea := mul (np_int surf_x) yz in
  let surfaceArea := add surfaceArea (mul (np_int surf_y) xz) in
  let surfaceArea := add surfaceArea (mul (np_int surf_z) xy) in
  surfaceArea.

(** Modelled from the spec: the base class [RadiomicsFeaturesBase] is
    missing.  [matrixCoordinates] is the index triples where the padded mask
    is true, and [targetVoxelArray] holds one entry per such voxel. *)
Definition base_matrixCoordinates (paddedMask : ndarray)
  : list nat * list nat * list nat :=
  where_ paddedMask.

(** Modelled from the spec: see [base_matrixCoordinates]. *)
Definition base_targetVoxelArray (paddedMask : ndarray) : list Z :=
  map (item paddedMask) (nonzero_indices paddedMask).

(** [__init__]: [spacing] is [inputImage.GetSpacing()], [inputMask] the
    mask image seen as an array.  An attribute that is not yet assigned
    holds a placeholder, which is never read. *)
Definition init (spacing : R * R * R) (inputMask : ndarray) : RadiomicsShape :=
  let '(sx, sy, sz) := spacing in
  let cubic := mul (mul (py sx) (py sy)) (py sz) in
  let padding := (1, 1, 1)%nat in
  let padded := Sitk.ConstantPadImageFilter padding padding inputMask in
  let self :=
    {| pixelSpacing := spacing;
       cubicMMPerVoxel := cubic;
       maskArray := padded;
       targetVoxelArray := base_targetVoxelArray padded;
       matrixCoordinates := base_matrixCoordinates padded;
       Volume := py 0;
       SurfaceArea := py 0 |} in
  let self := set_Volume self (getVolumeFeatureValue self) in
  let self := set_SurfaceArea self (getSurfaceAreaFeatureValue self) in
  self.

Definition getSurfaceVolumeRatioFeatureValue (self : RadiomicsShape)
  : result num :=
  div (SurfaceArea self) (Volume self).

Definition getCompactness1FeatureValue (self : RadiomicsShape) : result num :=
  p <- pow (SurfaceArea self) (py (2 / 3)) ;;
  div (Volume self) (mul p (np_sqrt pi)).

Definition getCompactness2FeatureValue (self : RadiomicsShape) : result num :=
  v2 <- pow (Volume self) (py 2) ;;
  a3 <- pow (SurfaceArea self) (py 3) ;;
  div (mul (mul (py 36) pi) v2) a3.

(** [numpy.min] and [numpy.max] of a 1-D array; an empty array has no
    minimum or maximum. *)
Definition np_min (l : list nat) : result nat :=
  match l with
  | [] => Raise ValueError
  | n :: l' => Ok (fold_left Nat.min l' n)
  end.

Definition np_max (l : list nat) : result nat :=
  match l with
  | [] => Raise ValueError
  | n :: l' => Ok (fold_left Nat.max l' n)
  end.

Definition greater (a b : R) : bool :=
  if Rlt_dec b a then true else false.

(** [voxelDistances.max()] for an array of finite distances. *)
Definition array_max (l : list R) : result R :=
  match l with
  | [] => Raise ValueError
  | d :: l' => Ok (fold_left (fun m v => if greater v m then v else m) l' d)
  end.

(** The transposed [matrixCoordinates] (its [zip]): the rows [(k, j, i)]. *)
Fixpoint zip3 (c0 c1 c2 : list nat) : list index :=
  match c0, c1, c2 with
  | k :: c0', j :: c1', i :: c2' => (k, j, i) :: zip3 c0' c1' c2'
  | _, _, _ => []
  end.

Definition column (n : nat) (v : index) : nat :=
  let '(k, j, i) := v in
  match n with 0%nat => k | 1%nat => j | _ => i end.

(** [a[a[:,n] == b]]: the rows whose column [n] equals [b]. *)
Definition rows_where (n : nat) (b : nat) (a : list index) : list index :=
  filter (fun v => (column n v =? b)%nat) a.

(** A row of indices times [[z, y, x]]. *)
Definition scale (spacing : R * R * R) (v : index) : R * R * R :=
  let '(x, y, z) := spacing in
  let '(k, j, i) := v in
  (INR k * z, INR j * y, INR i * x).

(** [numpy.sqrt(numpy.sum((p - q)**2))] for two rows. *)
Definition distance (p q : R * R * R) : R :=
  let '(p0, p1, p2) := p in
  let '(q0, q1, q2) := q in
  sqrt ((p0 - q0) ^ 2 + (p1 - q1) ^ 2 + (p2 - q2) ^ 2).

(** The loop over [edgeVoxelsMaxCoords], from the running maximum
    [maxDiameter]. *)
Fixpoint diameter_loop (edgeVoxelsMinCoords edgeVoxelsMaxCoords
                          : list (R * R * R))
    (maxDiameter : R) : result R :=
  match edgeVoxelsMaxCoords with
  | [] => Ok maxDiameter
  | voxel1 :: rest =>
      let voxelDistances :=
        map (fun v => distance v voxel1) edgeVoxelsMinCoords in
      m <- array_max voxelDistances ;;
      diameter_loop edgeVoxelsMinCoords rest
        (if greater m maxDiameter then m else maxDiameter)
  end.

(** The rows of [a] that lie on a bound of the region along some axis,
    first for the minimum bounds, then for the maximum bounds (the
    arguments of the two [numpy.vstack]).  A row on the bound of several
    axes is listed once per axis. *)
Definition edge_rows (matrixCoordinates : list nat * list nat * list nat)
  : result (list index * list index) :=
  let '(c0, c1, c2) := matrixCoordinates in
  min0 <- np_min c0 ;; min1 <- np_min c1 ;; min2 <- np_min c2 ;;
  max0 <- np_max c0 ;; max1 <- np_max c1 ;; max2 <- np_max c2 ;;
  let a := zip3 c0 c1 c2 in
  Ok (rows_where 0 min0 a ++ rows_where 1 min1 a ++ rows_where 2 min2 a,
      rows_where 0 max0 a ++ rows_where 1 max1 a ++ rows_where 2 max2 a).

Definition getMaximum3DDiameterFeatureValue (self : RadiomicsShape)
  : result R :=
  rows <- edge_rows (matrixCoordinates self) ;;
  let edgeVoxelsMinCoords := map (scale (pixelSpacing self)) (fst rows) in
  let edgeVoxelsMaxCoords := map (scale (pixelSpacing self)) (snd rows) in
  diameter_loop edgeVoxelsMinCoords edgeVoxelsMaxCoords 1.

Definition getSphericalDisproportionFeatureValue (self : RadiomicsShape)
  : result num :=
  q <- div (mul (py 3) (Volume self)) (mul (py 4) pi) ;;
  R <- pow q (py (1 / 3)) ;;
  r2 <- pow R (py 2) ;;
  div (SurfaceArea self) (mul (mul (py 4) pi) r2).

Definition getSphericityFeatureValue (self : RadiomicsShape) : result num :=
  p <- pow pi (py (1 / 3)) ;;
  v <- pow (mul (py 6) (Volume self)) (py (2 / 3)) ;;
  div (mul p v) (SurfaceArea self).

End Shape.

(** ** Vocabulary of the properties: binary masks and exposed faces *)

Module Mask.

Import Numpy.

Local Open Scope Z_scope.

Definition binaryb (a : ndarray) : bool :=
  forallb (fun v => (v =? 0) || (v =? 1)) (ravel a).

(** Every element of the array is 0 or 1. *)
Definition binary (a : ndarray) : Prop := binaryb a = true.

(** The pairs of adjacent voxels along [ax], named by the voxel of lower
    index, whose values [lo] (lower index) and [hi] (higher index) satisfy
    [p]. *)
Definition pairs (p : Z -> Z -> bool) (ax : axis) (a : ndarray) : list index :=
  filter (fun ix => p (item a ix) (item a (next ax ix)))
         (indices (shorten ax (shape a))).

Definition count_pairs (p : Z -> Z -> bool) (ax : axis) (a : ndarray) : Z :=
  Z.of_nat (length (pairs p ax a)).

Definition differ (lo hi : Z) : bool := negb (lo =? hi).

(** Outside to inside in the direction of growing index, and the
    reverse. *)
Definition entering (lo hi : Z) : bool := (lo =? 0) && (hi =? 1).

Definition leaving (lo hi : Z) : bool := (lo =? 1) && (hi =? 0).

(** The number of exposed faces orthogonal to [ax]: adjacent voxels with
    different values. *)
Definition faces (ax : axis) (a : ndarray) : Z := count_pairs differ ax a.

(** The mask as [__init__] pads it: one voxel of 0 on every face. *)
Definition padded (m : ndarray) : ndarray :=
  Sitk.ConstantPadImageFilter (1, 1, 1)%nat (1, 1, 1)%nat m.

(** The per-axis sums of the face counting stay within the accumulator
    of [numpy.sum]: a signed element type that holds -1, 0 and 1 and fewer
    than [2^63] elements, or an unsigned one whose wrapped differences,
    summed, stay below the accumulator's range. *)
Definition sums_fit (a : ndarray) : Prop :=
  match dtype_of a with
  | Int w => 2 <= w /\ Z.of_nat (size a) < 2 ^ 63
  | UInt w => 1 <= w /\ 2 ^ (w - 1) * Z.of_nat (size a) < 2 ^ (Z.max w 64)
  end.

(** The number of voxels of the region. *)
Definition voxels (a : ndarray) : Z :=
  Z.of_nat (length (nonzero_indices a)).

End Mask.

(** ** Inputs used as examples *)

Module Examples.

Import Numpy Float Shape.

Local Open Scope Z_scope.

(** A mask of one voxel and the 3x3x3 all-true mask. *)
Definition voxel (t : dtype) : ndarray := array t [[[1]]].

Definition cube3 (t : dtype) : ndarray :=
  array t (repeat (repeat (repeat 1 3) 3) 3).

(** A mask without a true voxel. *)
Definition empty (t : dtype) : ndarray := array t [[[0]]].

Definition unit_spacing : R * R * R := (1%R, 1%R, 1%R).

End Examples.

(** ** Vocabulary of the properties: what a feature function returns *)

Module Outcome.

Import Float.

(** The call returns the finite number [x]. *)
Definition returns (r : result num) (x : R) : Prop :=
  exists k, r = Ok (Num k (Finite x)).

(** The call returns (it does not raise), and the value is an infinity or
    NaN. *)
Definition returns_non_finite (r : result num) : Prop :=
  exists n, r = Ok n /\ is_finite (value n) = false.

End Outcome.

Module PaddedCube.

Local Open Scope nat_scope.

(** The 5x5x5 array whose 3x3x3 centre is 1 and whose shell is 0. *)
Definition inside (n : nat) : bool := (1 <=? n) && (n <=? 3).

Definition value (ix : Numpy.index) : Z :=
  let '(k, j, i) := ix in
  if inside k && inside j && inside i then 1%Z else 0%Z.

Definition elements : list Z := map value (Numpy.indices (5, 5, 5)).

End PaddedCube.

(** ** Sums, maxima and lines of voxels, for the counting arguments *)

Module Lines.

Import Numpy.

Local Open Scope Z_scope.

(** [f 0 + ... + f (n-1)]. *)
Fixpoint sum_n (n : nat) (f : nat -> Z) : Z :=
  match n with
  | O => 0
  | S n' => sum_n n' f + f n'
  end.

(** The largest of 0, [f 0], ..., [f (n-1)]. *)
Fixpoint max_n (n : nat) (f : nat -> Z) : Z :=
  match n with
  | O => 0
  | S n' => Z.max (max_n n' f) (f n')
  end.

Definition indicator (b : bool) : Z := if b then 1 else 0.

(** The two extents across an axis, and the extent along it. *)
Definition across (ax : axis) (sh : index) : nat * nat :=
  let '(d, h, w) := sh in
  match ax with
  | Axis0 => (h, w)
  | Axis1 => (d, w)
  | Axis2 => (d, h)
  end.

Definition along (ax : axis) (sh : index) : nat :=
  let '(d, h, w) := sh in
  match ax with
  | Axis0 => d
  | Axis1 => h
  | Axis2 => w
  end.

(** The index at position [t] of the line along [ax] through [(u, v)]. *)
Definition place (ax : axis) (u v t : nat) : index :=
  match ax with
  | Axis0 => (t, u, v)
  | Axis1 => (u, t, v)
  | Axis2 => (u, v, t)
  end.

Definition line (ax : axis) (a : ndarray) (u v : nat) : nat -> Z :=
  fun t => item a (place ax u v t).

(** 1 when the line along [ax] through [(u, v)] meets the region: the
    projection of the region onto the plane across [ax]. *)
Definition shadow (ax : axis) (a : ndarray) (u v : nat) : Z :=
  max_n (along ax (shape a)) (line ax a u v).

(** The area of that projection, in voxel faces. *)
Definition shadow_area (ax : axis) (a : ndarray) : Z :=
  let '(du, dv) := across ax (shape a) in
  sum_n du (fun u => sum_n dv (fun v => shadow ax a u v)).

End Lines.

Module Shuffle.

Import Numpy.

Local Open Scope Z_scope.

(** [m'] holds the voxels of [m] in another storage order: same element
    type and shape, and the stored elements are a permutation. *)
Definition reordered (m m' : ndarray) : Prop :=
  dtype_of m = dtype_of m' /\ shape m = shape m' /\
  Permutation (ravel m) (ravel m').

(** Two voxels side by side, and the same two voxels apart. *)
Definition together : ndarray := array (Int 8) [[[1; 1; 0]]].

Definition apart : ndarray := array (Int 8) [[[1; 0; 1]]].

End Shuffle.

Module SmallRegion.

Import Numpy.

Local Open Scope R_scope.

(** Two voxels next to each other along x, a quarter of a millimetre
    apart. *)
Definition mask : ndarray := array (Int 8) [[[1%Z; 1%Z]]].

Definition spacing : R * R * R := (/ 4, / 4, / 4).

End SmallRegion.

Module Spiky.

Import Numpy.

Local Open Scope nat_scope.

(** A region of 14 voxels in a 7x7x7 mask: the six voxels at distance 3
    from the centre along the axes, and the eight voxels at (+-2, +-2, +-2)
    from the centre. *)
Definition on_axis (a b c : nat) : bool :=
  ((a =? 0) || (a =? 6)) && (b =? 3) && (c =? 3).

Definition corner (a : nat) : bool := (a =? 1) || (a =? 5).

Definition mask : ndarray :=
  {| dtype_of := Int 8;
     shape := (7, 7, 7);
     item := fun '(k, j, i) =>
       if on_axis k j i || on_axis j k i || on_axis i k j
          || (corner k && corner j && corner i)
       then 1%Z else 0%Z |}.

End Spiky.

Module Box.

Import Numpy.

(** [numpy.ones(sh, dtype=t)]: the mask that is true everywhere. *)
Definition ones (t : dtype) (sh : index) : ndarray :=
  {| dtype_of := t; shape := sh; item := fun _ => 1%Z |}.

End Box.

Module Transposed.

Import Numpy.

(** A triple with the positions [a1] and [a2] exchanged. *)
Definition exchange {A : Type} (a1 a2 : axis) (t : A * A * A) : A * A * A :=
  let '(k, j, i) := t in
  match a1, a2 with
  | Axis0, Axis1 | Axis1, Axis0 => (j, k, i)
  | Axis0, Axis2 | Axis2, Axis0 => (i, j, k)
  | Axis1, Axis2 | Axis2, Axis1 => (k, i, j)
  | _, _ => (k, j, i)
  end.

(** [numpy.swapaxes(a, a1, a2)]. *)
Definition swapaxes (a1 a2 : axis) (a : ndarray) : ndarray :=
  {| dtype_of := dtype_of a;
     shape := exchange a1 a2 (shape a);
     item := fun ix => item a (exchange a1 a2 ix) |}.

(** The axis of [a] that axis [ax] of [swapaxes a1 a2 a] runs along. *)
Definition image (a1 a2 ax : axis) : axis :=
  let '(p, q, r) := exchange a1 a2 (Axis0, Axis1, Axis2) in
  match ax with Axis0 => p | Axis1 => q | Axis2 => r end.

(** The spacing of the image with these two axes exchanged. The spacing is
    given as (x, y, z), and x runs along the last array axis. *)
Definition spacing (a1 a2 : axis) (sp : R * R * R) : R * R * R :=
  let '(sx, sy, sz) := sp in
  let '(z', y', x') := exchange a1 a2 (sz, sy, sx) in
  (x', y', z').

End Transposed.

(** * Properties *)

Import Numpy Float Shape.

(** ** Fixed-width arithmetic *)

Section Wrap.

Local Open Scope Z_scope.

Lemma wrap_signed_exact (w v : Z) :
  1 <= w -> - 2 ^ (w - 1) <= v < 2 ^ (w - 1) -> wrap (Int w) v = v.
Proof.
  intros Hw Hv. unfold wrap.
  assert (E : 2 ^ w = 2 * 2 ^ (w - 1)).
  { replace w with (Z.succ (w - 1)) at 1 by lia. apply Z.pow_succ_r. lia. }
  rewrite Z.mod_small by lia. lia.
Qed.

Lemma wrap_unsigned_exact (w v : Z) :
  0 <= v < 2 ^ w -> wrap (UInt w) v = v.
Proof. intros Hv. unfold wrap. now apply Z.mod_small. Qed.

Lemma pow2_ge_2 (w : Z) : 1 <= w -> 2 <= 2 ^ w.
Proof.
  intros Hw. change 2 with (2 ^ 1) at 1. apply Z.pow_le_mono_r; lia.
Qed.

Lemma pow2_mono (a b : Z) : 0 <= a <= b -> 2 ^ a <= 2 ^ b.
Proof. intros H. apply Z.pow_le_mono_r; lia. Qed.

End Wrap.

(** ** Index ranges *)

Section Indices.

Lemma in_indices (sh ix : index) : In ix (indices sh) <-> in_bounds sh ix.
Proof.
  destruct sh as [[d h] w], ix as [[k j] i]. unfold indices, in_bounds.
  rewrite in_flat_map. split.
  - intros (k' & Hk & H). rewrite in_flat_map in H.
    destruct H as (j' & Hj & H). rewrite in_map_iff in H.
    destruct H as (i' & E & Hi). inversion E; subst.
    rewrite in_seq in *. lia.
  - intros (Hk & Hj & Hi). exists k. split; [rewrite in_seq; lia|].
    rewrite in_flat_map. exists j. split; [rewrite in_seq; lia|].
    rewrite in_map_iff. exists i. split; [reflexivity|rewrite in_seq; lia].
Qed.

Lemma length_flat_map_const {A B : Type} (f : A -> list B) (n : nat) (l : list A) :
  (forall x, length (f x) = n) -> length (flat_map f l) = (length l * n)%nat.
Proof.
  intros H. induction l as [|x l IH]; simpl; [reflexivity|].
  rewrite length_app, H, IH. reflexivity.
Qed.

Lemma length_indices (d h w : nat) :
  length (indices (d, h, w)) = (d * h * w)%nat.
Proof.
  unfold indices.
  rewrite (length_flat_map_const _ (h * w)).
  - rewrite length_seq. lia.
  - intros k. rewrite (length_flat_map_const _ w).
    + now rewrite length_seq.
    + intros j. now rewrite length_map, length_seq.
Qed.

Lemma in_bounds_shorten (ax : axis) (sh ix : index) :
  in_bounds (shorten ax sh) ix ->
  in_bounds sh ix /\ in_bounds sh (next ax ix).
Proof.
  destruct sh as [[d h] w], ix as [[k j] i], ax; simpl; lia.
Qed.

Lemma length_indices_shorten (ax : axis) (sh : index) :
  (length (indices (shorten ax sh)) <= length (indices sh))%nat.
Proof.
  destruct sh as [[d h] w], ax; simpl shorten; rewrite !length_indices.
  - apply Nat.mul_le_mono_r, Nat.mul_le_mono_r. lia.
  - apply Nat.mul_le_mono_r, Nat.mul_le_mono_l. lia.
  - apply Nat.mul_le_mono_l. lia.
Qed.

Lemma length_indices_size (a : ndarray) :
  length (indices (shape a)) = size a.
Proof.
  unfold size. destruct (shape a) as [[d h] w]. apply length_indices.
Qed.

End Indices.

(** ** Face counting *)

Section FaceCount.

Local Open Scope Z_scope.

Lemma list_sum_app (l1 l2 : list Z) :
  list_sum (l1 ++ l2) = list_sum l1 + list_sum l2.
Proof.
  unfold list_sum. induction l1 as [|x l1 IH]; simpl; [reflexivity|].
  rewrite IH. ring.
Qed.

Lemma list_sum_map_ext {A : Type} (f g : A -> Z) (l : list A) :
  (forall x, In x l -> f x = g x) ->
  list_sum (map f l) = list_sum (map g l).
Proof.
  intros H. induction l as [|x l IH]; simpl; [reflexivity|].
  rewrite H by (now left). rewrite IH; [reflexivity|].
  intros y Hy. apply H. now right.
Qed.

Lemma list_sum_indicator {A : Type} (p : A -> bool) (l : list A) :
  list_sum (map (fun x => if p x then 1 else 0) l)
  = Z.of_nat (length (filter p l)).
Proof.
  induction l as [|x l IH]; [reflexivity|].
  cbn [map filter list_sum fold_right]. fold (list_sum (map (fun x => if p x then 1 else 0) l)).
  rewrite IH. destruct (p x); cbn [length]; lia.
Qed.

Lemma list_sum_two_indicators {A : Type} (p q : A -> bool) (c : Z) (l : list A) :
  list_sum (map (fun x => if p x then 1 else if q x then c else 0) l)
  = Z.of_nat (length (filter p l))
    + c * Z.of_nat (length (filter (fun x => negb (p x) && q x) l)).
Proof.
  induction l as [|x l IH]; [cbn; lia|].
  cbn [map filter list_sum fold_right].
  fold (list_sum (map (fun x => if p x then 1 else if q x then c else 0) l)).
  rewrite IH. destruct (p x), (q x); cbn [negb andb length]; lia.
Qed.

Lemma binary_item (a : ndarray) (ix : index) :
  Mask.binary a -> in_bounds (shape a) ix -> item a ix = 0 \/ item a ix = 1.
Proof.
  unfold Mask.binary, Mask.binaryb, ravel. intros H Hix.
  rewrite forallb_forall in H.
  specialize (H (item a ix)).
  assert (Hin : In (item a ix) (map (item a) (indices (shape a)))).
  { apply in_map. now apply in_indices. }
  specialize (H Hin). lia.
Qed.

Lemma binary_intro (a : ndarray) :
  (forall ix, in_bounds (shape a) ix -> item a ix = 0 \/ item a ix = 1) ->
  Mask.binary a.
Proof.
  intros H. unfold Mask.binary, Mask.binaryb, ravel.
  apply forallb_forall. intros v Hv. apply in_map_iff in Hv.
  destruct Hv as (ix & <- & Hix). apply in_indices in Hix.
  destruct (H ix Hix); lia.
Qed.

Lemma wrap_add_l (t : dtype) (a b : Z) :
  wrap t (wrap t a + b) = wrap t (a + b).
Proof.
  destruct t as [w|w]; unfold wrap.
  - replace ((a + 2 ^ (w - 1)) mod 2 ^ w - 2 ^ (w - 1) + b + 2 ^ (w - 1))
      with ((a + 2 ^ (w - 1)) mod 2 ^ w + b) by ring.
    rewrite Zplus_mod_idemp_l. f_equal. f_equal. ring.
  - apply Zplus_mod_idemp_l.
Qed.

Lemma wrap_idempotent (t : dtype) (a : Z) : wrap t (wrap t a) = wrap t a.
Proof.
  rewrite <- (Z.add_0_r (wrap t a)) at 1. rewrite wrap_add_l.
  now rewrite Z.add_0_r.
Qed.

Lemma wrap_0 (t : dtype) : wrap t 0 = 0.
Proof.
  destruct t as [w|w]; unfold wrap.
  - destruct (Z_lt_le_dec w 1) as [Hw|Hw].
    + rewrite (Z.pow_neg_r 2 (w - 1)) by lia. now rewrite Zmod_0_l.
    + assert (E : 2 ^ w = 2 * 2 ^ (w - 1)).
      { replace w with (Z.succ (w - 1)) at 1 by lia.
        apply Z.pow_succ_r. lia. }
      assert (0 < 2 ^ (w - 1)) by (apply Z.pow_pos_nonneg; lia).
      rewrite Z.mod_small by lia. lia.
  - apply Zmod_0_l.
Qed.

Lemma fold_wrap_add (t : dtype) (l : list Z) (acc : Z) :
  wrap t (fold_left (fun acc v => wrap t (acc + v)) l acc)
  = wrap t (acc + list_sum l).
Proof.
  revert acc. induction l as [|v l IH]; intros acc; cbn [fold_left].
  - unfold list_sum. cbn. now rewrite Z.add_0_r.
  - rewrite IH, wrap_add_l. f_equal. unfold list_sum. cbn [fold_right]. ring.
Qed.

Lemma fold_wrap_wrapped (t : dtype) (l : list Z) (acc : Z) :
  wrap t acc = acc ->
  wrap t (fold_left (fun acc v => wrap t (acc + v)) l acc)
  = fold_left (fun acc v => wrap t (acc + v)) l acc.
Proof.
  revert acc. induction l as [|v l IH]; intros acc H; cbn [fold_left].
  - exact H.
  - apply IH. apply wrap_idempotent.
Qed.

(** Adding with wrap-around gives the exact total, reduced once. *)
Lemma sum_wraps_total (a : ndarray) :
  Numpy.sum a = wrap (sum_dtype (dtype_of a)) (list_sum (ravel a)).
Proof.
  unfold Numpy.sum.
  rewrite <- fold_wrap_wrapped by apply wrap_0.
  now rewrite fold_wrap_add.
Qed.

(** What [surf] adds up, before the accumulator wraps. *)
Lemma surf_unfold (ax : axis) (m : ndarray) :
  surf ax m =
  wrap (sum_dtype (dtype_of m))
    (list_sum
       (map (fun ix =>
               wrap (dtype_of m)
                 (Z.abs (wrap (dtype_of m) (item m (next ax ix) - item m ix))))
            (indices (shorten ax (shape m))))).
Proof. unfold surf. rewrite sum_wraps_total. reflexivity. Qed.

Lemma signed_term (w a b : Z) :
  2 <= w -> (a = 0 \/ a = 1) -> (b = 0 \/ b = 1) ->
  wrap (Int w) (Z.abs (wrap (Int w) (b - a)))
  = if Mask.differ a b then 1 else 0.
Proof.
  intros Hw Ha Hb.
  assert (H2 : 2 <= 2 ^ (w - 1)) by (apply pow2_ge_2; lia).
  rewrite (wrap_signed_exact w (b - a)) by lia.
  rewrite wrap_signed_exact by lia.
  unfold Mask.differ. destruct Ha, Hb; subst; reflexivity.
Qed.

Lemma unsigned_term (w a b : Z) :
  1 <= w -> (a = 0 \/ a = 1) -> (b = 0 \/ b = 1) ->
  wrap (UInt w) (Z.abs (wrap (UInt w) (b - a)))
  = if Mask.entering a b then 1
    else if Mask.leaving a b then 2 ^ w - 1 else 0.
Proof.
  intros Hw Ha Hb.
  assert (H2 : 2 <= 2 ^ w) by (apply pow2_ge_2; lia).
  destruct Ha, Hb; subst; unfold Mask.entering, Mask.leaving;
    simpl Z.eqb; cbn [andb].
  - reflexivity.
  - change (1 - 0) with 1. rewrite (wrap_unsigned_exact w 1) by lia.
    change (Z.abs 1) with 1. apply wrap_unsigned_exact. lia.
  - assert (E : wrap (UInt w) (0 - 1) = 2 ^ w - 1).
    { unfold wrap.
      replace (0 - 1) with ((2 ^ w - 1) + (-1) * 2 ^ w) by lia.
      rewrite Z.mod_add by lia. apply Z.mod_small. lia. }
    rewrite E. rewrite Z.abs_eq by lia. apply wrap_unsigned_exact. lia.
  - reflexivity.
Qed.

(** Signed elements: the sum is the number of differing pairs, reduced
    into the accumulator. *)
Lemma surf_signed (ax : axis) (m : ndarray) (w : Z) :
  dtype_of m = Int w -> 2 <= w -> Mask.binary m ->
  surf ax m = wrap (Int (Z.max w 64)) (Mask.faces ax m).
Proof.
  intros Hd Hw Hb. rewrite surf_unfold, Hd. cbn [sum_dtype]. f_equal.
  unfold Mask.faces, Mask.count_pairs, Mask.pairs.
  rewrite <- list_sum_indicator. apply list_sum_map_ext.
  intros ix Hix. apply in_indices, in_bounds_shorten in Hix.
  destruct Hix as [H1 H2].
  apply signed_term; [assumption| |]; now apply binary_item.
Qed.

Lemma count_pairs_le_size (p : Z -> Z -> bool) (ax : axis) (m : ndarray) :
  0 <= Mask.count_pairs p ax m <= Z.of_nat (size m).
Proof.
  unfold Mask.count_pairs, Mask.pairs. split; [lia|].
  apply Nat2Z.inj_le.
  etransitivity; [apply filter_length_le|].
  rewrite <- length_indices_size. apply length_indices_shorten.
Qed.

Lemma surf_signed_exact (ax : axis) (m : ndarray) (w : Z) :
  dtype_of m = Int w -> 2 <= w -> Mask.binary m ->
  Z.of_nat (size m) < 2 ^ 63 ->
  surf ax m = Mask.faces ax m.
Proof.
  intros Hd Hw Hb Hs. rewrite (surf_signed ax m w) by assumption.
  pose proof (count_pairs_le_size Mask.differ ax m) as Hc.
  fold (Mask.faces ax m) in Hc.
  apply wrap_signed_exact; [lia|].
  assert (2 ^ 63 <= 2 ^ (Z.max w 64 - 1)) by (apply pow2_mono; lia).
  lia.
Qed.

End FaceCount.

(** ** Surface area *)

Section SurfaceArea.

Local Open Scope R_scope.

Lemma surface_area_value (self : RadiomicsShape) (sx sy sz : R) :
  pixelSpacing self = (sx, sy, sz) ->
  getSurfaceAreaFeatureValue self =
  Num Numpy64
    (Finite (IZR (surf Axis2 (maskArray self)) * (sy * sz)
             + IZR (surf Axis1 (maskArray self)) * (sx * sz)
             + IZR (surf Axis0 (maskArray self)) * (sx * sy))).
Proof.
  intros Hs. unfold getSurfaceAreaFeatureValue. rewrite Hs. reflexivity.
Qed.

(** On a binary mask whose elements subtract exactly (a signed element
    type), [getSurfaceAreaFeatureValue] returns the number of adjacent
    voxel pairs with different values along the x axis (the last array
    axis) times [sy*sz], plus that along the y axis times [sx*sz], plus that
    along the z axis (the first array axis) times [sx*sy]. *)
Lemma signed_surface_area_is_weighted_face_count
    (self : RadiomicsShape) (w : Z) (sx sy sz : R) :
  pixelSpacing self = (sx, sy, sz) ->
  dtype_of (maskArray self) = Int w -> (2 <= w)%Z ->
  Mask.binary (maskArray self) ->
  (Z.of_nat (size (maskArray self)) < 2 ^ 63)%Z ->
  getSurfaceAreaFeatureValue self =
  Num Numpy64
    (Finite (IZR (Mask.faces Axis2 (maskArray self)) * (sy * sz)
             + IZR (Mask.faces Axis1 (maskArray self)) * (sx * sz)
             + IZR (Mask.faces Axis0 (maskArray self)) * (sx * sy))).
Proof.
  intros Hs Hd Hw Hb Hn.
  rewrite (surface_area_value self sx sy sz Hs).
  rewrite !(surf_signed_exact _ _ w) by assumption.
  reflexivity.
Qed.

Lemma signed_surface_area_example :
  let self := init Examples.unit_spacing (Examples.cube3 (Int 16)) in
  getSurfaceAreaFeatureValue self =
  Num Numpy64
    (Finite (IZR (Mask.faces Axis2 (maskArray self)) * (1 * 1)
             + IZR (Mask.faces Axis1 (maskArray self)) * (1 * 1)
             + IZR (Mask.faces Axis0 (maskArray self)) * (1 * 1))).
Proof.
  intros self.
  apply (signed_surface_area_is_weighted_face_count self 16 1 1 1).
  - reflexivity.
  - reflexivity.
  - lia.
  - reflexivity.
  - reflexivity.
Qed.

End SurfaceArea.

(** ** Scalar arithmetic on finite operands *)

Section FiniteArithmetic.

Local Open Scope R_scope.

Lemma finite_pow_pos (a b : R) :
  0 < a -> b <> 0 -> finite_pow a b = Finite (Rpower a b).
Proof.
  intros Ha Hb. unfold finite_pow.
  destruct (Req_EM_T b 0); [contradiction|].
  destruct (Rlt_dec 0 a); [reflexivity|contradiction].
Qed.

Lemma finite_pow_zero (b : R) : 0 < b -> finite_pow 0 b = Finite 0.
Proof.
  intros Hb. unfold finite_pow.
  destruct (Req_EM_T b 0); [lra|].
  destruct (Rlt_dec 0 0); [lra|].
  destruct (Req_EM_T 0 0); [|lra].
  destruct (Rlt_dec 0 b); [reflexivity|contradiction].
Qed.

Lemma pow_pos (k : kind) (x y : R) :
  0 < x -> y <> 0 ->
  pow (Num k (Finite x)) (Num Python (Finite y))
  = Ok (Num k (Finite (Rpower x y))).
Proof.
  intros Hx Hy. unfold pow, result_kind. cbn [kind_of value].
  destruct k.
  - destruct (Req_EM_T x 0); [lra|].
    destruct (Rlt_dec x 0); [lra|].
    now rewrite finite_pow_pos.
  - cbn [fpow]. now rewrite finite_pow_pos.
Qed.

Lemma pow_zero (k : kind) (y : R) :
  0 < y ->
  pow (Num k (Finite 0)) (Num Python (Finite y)) = Ok (Num k (Finite 0)).
Proof.
  intros Hy. unfold pow, result_kind. cbn [kind_of value].
  destruct k.
  - destruct (Req_EM_T 0 0); [|lra].
    destruct (Rlt_dec y 0); [lra|].
    now rewrite finite_pow_zero.
  - cbn [fpow]. now rewrite finite_pow_zero.
Qed.

Lemma div_finite (a b : num) (x y : R) :
  value a = Finite x -> value b = Finite y -> y <> 0 ->
  div a b = Ok (Num (result_kind a b) (Finite (x / y))).
Proof.
  intros Ha Hb Hy. unfold div. rewrite Ha, Hb.
  unfold is_zero, fdiv.
  destruct (Req_EM_T y 0); [contradiction|].
  destruct (result_kind a b); reflexivity.
Qed.

(** With a numpy operand, zero over zero is NaN and nothing is raised. *)
Lemma div_zero_zero_numpy (a b : num) :
  value a = Finite 0 -> value b = Finite 0 -> result_kind a b = Numpy64 ->
  div a b = Ok (Num Numpy64 NaN).
Proof.
  intros Ha Hb Hk. unfold div. rewrite Hk, Ha, Hb. unfold fdiv.
  destruct (Req_EM_T 0 0); [reflexivity|lra].
Qed.

(** Between two Python floats the same division raises. *)
Lemma div_zero_python (a b : num) :
  value b = Finite 0 -> result_kind a b = Python ->
  div a b = Raise ZeroDivisionError.
Proof.
  intros Hb Hk. unfold div. rewrite Hk, Hb. unfold is_zero.
  destruct (Req_EM_T 0 0); [reflexivity|lra].
Qed.

Lemma Rpower_2 (x : R) : 0 < x -> Rpower x 2 = x * x.
Proof.
  intros Hx. replace 2 with (INR 2) by (simpl; lra).
  rewrite Rpower_pow by assumption. simpl. ring.
Qed.

Lemma Rpower_3 (x : R) : 0 < x -> Rpower x 3 = x * x * x.
Proof.
  intros Hx. replace 3 with (INR 3) by (simpl; lra).
  rewrite Rpower_pow by assumption. simpl. ring.
Qed.

Lemma Rpower_pos (x y : R) : 0 < Rpower x y.
Proof. unfold Rpower. apply exp_pos. Qed.

End FiniteArithmetic.

(** ** The descriptors on a finite, positive volume and surface area *)

Section Descriptors.

Local Open Scope R_scope.

Variable self : RadiomicsShape.
Variables V A : R.
Hypothesis Volume_finite : value (Volume self) = Finite V.
Hypothesis SurfaceArea_finite : value (SurfaceArea self) = Finite A.
Hypothesis V_pos : 0 < V.
Hypothesis A_pos : 0 < A.

Ltac expose_fields :=
  destruct self as [sp cub mask tva mc [kV vV] [kA vA]];
  cbn [Volume SurfaceArea value] in *; subst vV vA;
  unfold mul, np_sqrt, pi, py; cbn [value fmul kind_of result_kind].

Ltac step_pow :=
  rewrite pow_pos; [cbn [bind] | try assumption; try lra ..].

Ltac step_div :=
  erewrite div_finite;
  [cbn [bind value fmul kind_of result_kind]
  |reflexivity|reflexivity|try lra].

Lemma ratio_value :
  Outcome.returns (getSurfaceVolumeRatioFeatureValue self) (A / V).
Proof.
  unfold getSurfaceVolumeRatioFeatureValue.
  rewrite (div_finite _ _ A V) by (assumption || lra).
  eexists. reflexivity.
Qed.


Lemma compactness2_value :
  Outcome.returns (getCompactness2FeatureValue self)
    (36 * PI * (V * V) / (A * A * A)).
Proof.
  unfold getCompactness2FeatureValue. expose_fields.
  step_pow. step_pow.
  rewrite Rpower_2, Rpower_3 by assumption.
  step_div; [eexists; reflexivity|].
  apply Rgt_not_eq. repeat apply Rmult_lt_0_compat; assumption.
Qed.

Lemma disproportion_value :
  Outcome.returns (getSphericalDisproportionFeatureValue self)
    (A / (4 * PI * Rpower (Rpower (3 * V / (4 * PI)) (1 / 3)) 2)).
Proof.
  pose proof PI_RGT_0 as Hpi.
  unfold getSphericalDisproportionFeatureValue. expose_fields.
  step_div.
  assert (Hq : 0 < 3 * V / (4 * PI)).
  { apply Rdiv_lt_0_compat; lra. }
  step_pow.
  rewrite pow_pos; [cbn [bind]|apply Rpower_pos|lra].
  step_div; [eexists; reflexivity|].
  pose proof (Rpower_pos (Rpower (3 * V / (4 * PI)) (1 / 3)) 2). nra.
Qed.

Lemma sphericity_value :
  Outcome.returns (getSphericityFeatureValue self)
    (Rpower PI (1 / 3) * Rpower (6 * V) (2 / 3) / A).
Proof.
  pose proof PI_RGT_0 as Hpi.
  unfold getSphericityFeatureValue. expose_fields.
  step_pow. step_pow.
  step_div. eexists; reflexivity.
Qed.

End Descriptors.

(** ** Sphericity and spherical disproportion *)

Section Sphericity.

Local Open Scope R_scope.

Lemma returns_unique (r : result num) (x y : R) :
  Outcome.returns r x -> Outcome.returns r y -> x = y.
Proof. intros [k Hk] [k' Hk']. congruence. Qed.

Lemma Rpower_8_two_thirds : Rpower 8 (2 / 3) = 4.
Proof.
  replace 8 with (Rpower 2 3) by (rewrite Rpower_3; lra).
  rewrite Rpower_mult. replace (3 * (2 / 3)) with 2 by field.
  rewrite Rpower_2; lra.
Qed.

Lemma Rpower_third_two_thirds (x : R) :
  0 < x -> Rpower x (1 / 3) * Rpower x (2 / 3) = x.
Proof.
  intros Hx. rewrite <- Rpower_plus.
  replace (1 / 3 + 2 / 3) with 1 by field. now apply Rpower_1.
Qed.

(** The algebra behind the identity: with [q = 3V/(4 pi)], the radius
    squared is [q^(2/3)] and [(6V)^(2/3) = 4 pi^(2/3) q^(2/3)]. *)
Lemma sphere_identity (V A : R) :
  0 < V -> 0 < A ->
  (Rpower PI (1 / 3) * Rpower (6 * V) (2 / 3) / A)
  * (A / (4 * PI * Rpower (Rpower (3 * V / (4 * PI)) (1 / 3)) 2)) = 1.
Proof.
  intros HV HA. pose proof PI_RGT_0 as Hpi.
  set (q := 3 * V / (4 * PI)).
  assert (Hq : 0 < q) by (apply Rdiv_lt_0_compat; lra).
  rewrite Rpower_mult. replace (1 / 3 * 2) with (2 / 3) by field.
  replace (6 * V) with (8 * PI * q) by (unfold q; field; lra).
  rewrite <- !Rpower_mult_distr by lra.
  rewrite Rpower_8_two_thirds.
  pose proof (Rpower_third_two_thirds PI Hpi) as HP.
  pose proof (Rpower_pos q (2 / 3)) as Hq23.
  set (c := Rpower q (2 / 3)) in *.
  set (a := Rpower PI (1 / 3)) in *.
  set (b := Rpower PI (2 / 3)) in *.
  assert (Ha : 0 < a) by apply Rpower_pos.
  assert (Hb : 0 < b) by apply Rpower_pos.
  rewrite <- HP. field. repeat split; lra.
Qed.

(** In exact arithmetic (no rounding, no overflow): whenever the volume and
    the surface area are positive, [getSphericityFeatureValue] returns
    [pi^(1/3) (6V)^(2/3) / A], [getSphericalDisproportionFeatureValue]
    returns [A / (4 pi R^2)] with [R = (3V / (4 pi))^(1/3)], and the
    product of the two is 1. The doubles that the code returns carry the
    rounding of every operation, and their product is only close to 1. *)
Theorem sphericity_times_disproportion (self : RadiomicsShape) (V A : R) :
  value (Volume self) = Finite V ->
  value (SurfaceArea self) = Finite A ->
  0 < V -> 0 < A ->
  exists s d : R,
    Outcome.returns (getSphericityFeatureValue self) s /\
    Outcome.returns (getSphericalDisproportionFeatureValue self) d /\
    s = Rpower PI (1 / 3) * Rpower (6 * V) (2 / 3) / A /\
    d = (let R := Rpower (3 * V / (4 * PI)) (1 / 3) in
         A / (4 * PI * Rpower R 2)) /\
    s * d = 1.
Proof.
  intros HV HA HVpos HApos.
  exists (Rpower PI (1 / 3) * Rpower (6 * V) (2 / 3) / A).
  exists (A / (4 * PI * Rpower (Rpower (3 * V / (4 * PI)) (1 / 3)) 2)).
  split; [now apply sphericity_value|].
  split; [now apply disproportion_value|].
  split; [reflexivity|]. split; [reflexivity|].
  now apply sphere_identity.
Qed.

Lemma sphericity_times_disproportion_witness :
  let self := init Examples.unit_spacing (Examples.cube3 (Int 16)) in
  exists s d : R,
    Outcome.returns (getSphericityFeatureValue self) s /\
    Outcome.returns (getSphericalDisproportionFeatureValue self) d /\
    s = Rpower PI (1 / 3) * Rpower (6 * (IZR 27 * (1 * 1 * 1))) (2 / 3)
        / (IZR 18 * (1 * 1) + IZR 18 * (1 * 1) + IZR 18 * (1 * 1)) /\
    d = (let R := Rpower (3 * (IZR 27 * (1 * 1 * 1)) / (4 * PI)) (1 / 3) in
         (IZR 18 * (1 * 1) + IZR 18 * (1 * 1) + IZR 18 * (1 * 1))
         / (4 * PI * Rpower R 2)) /\
    s * d = 1.
Proof.
  intros self.
  apply (sphericity_times_disproportion self (IZR 27 * (1 * 1 * 1))
           (IZR 18 * (1 * 1) + IZR 18 * (1 * 1) + IZR 18 * (1 * 1))).
  - reflexivity.
  - reflexivity.
  - lra.
  - lra.
Defined.

End Sphericity.

(** ** Construction *)

Section Construction.

Local Open Scope R_scope.

Lemma init_pixelSpacing (sp : R * R * R) (m : ndarray) :
  pixelSpacing (init sp m) = sp.
Proof. destruct sp as [[sx sy] sz]. reflexivity. Qed.

Lemma init_maskArray (sp : R * R * R) (m : ndarray) :
  maskArray (init sp m) = Mask.padded m.
Proof. destruct sp as [[sx sy] sz]. reflexivity. Qed.

Lemma init_matrixCoordinates (sp : R * R * R) (m : ndarray) :
  matrixCoordinates (init sp m) = where_ (Mask.padded m).
Proof. destruct sp as [[sx sy] sz]. reflexivity. Qed.

Lemma init_Volume (sx sy sz : R) (m : ndarray) :
  Volume (init (sx, sy, sz) m)
  = Num Python (Finite (IZR (Mask.voxels (Mask.padded m)) * (sx * sy * sz))).
Proof.
  unfold init, set_SurfaceArea, set_Volume, getVolumeFeatureValue.
  cbn [Volume targetVoxelArray cubicMMPerVoxel].
  unfold base_targetVoxelArray. rewrite length_map. reflexivity.
Qed.

Lemma init_getVolume (sp : R * R * R) (m : ndarray) :
  getVolumeFeatureValue (init sp m) = Volume (init sp m).
Proof. destruct sp as [[sx sy] sz]. reflexivity. Qed.

Lemma init_SurfaceArea (sp : R * R * R) (m : ndarray) :
  SurfaceArea (init sp m) = getSurfaceAreaFeatureValue (init sp m).
Proof. destruct sp as [[sx sy] sz]. reflexivity. Qed.

Lemma dtype_padded (m : ndarray) : dtype_of (Mask.padded m) = dtype_of m.
Proof.
  unfold Mask.padded, Sitk.ConstantPadImageFilter.
  destruct (shape m) as [[d h] w]. reflexivity.
Qed.

Lemma shape_padded (m : ndarray) (d h w : nat) :
  shape m = (d, h, w) -> shape (Mask.padded m) = (S (d + 1), S (h + 1), S (w + 1)).
Proof.
  intros H. unfold Mask.padded, Sitk.ConstantPadImageFilter. rewrite H. reflexivity.
Qed.

End Construction.

(** ** The 3x3x3 cube *)

Section Cube.

Local Open Scope R_scope.

Lemma PI_bounds : 3.1415 < PI < 3.1417.
Proof.
  pose proof (PI_2_3_7_ineq 2) as [Hlo Hhi].
  unfold sum_f_R0, tg_alt, PI_2_3_7_tg, Ratan_seq in Hlo, Hhi.
  simpl in Hlo, Hhi.
  split; lra.
Qed.

Lemma cube3_faces (t : dtype) (ax : axis) :
  Mask.faces ax (Mask.padded (Examples.cube3 t)) = 18%Z.
Proof. destruct ax; vm_compute; reflexivity. Qed.

Lemma cube3_voxels (t : dtype) :
  Mask.voxels (Mask.padded (Examples.cube3 t)) = 27%Z.
Proof. vm_compute. reflexivity. Qed.

Lemma cube3_binary (t : dtype) : Mask.binary (Mask.padded (Examples.cube3 t)).
Proof. vm_compute. reflexivity. Qed.

Lemma cube3_Volume (t : dtype) :
  Volume (init Examples.unit_spacing (Examples.cube3 t))
  = Num Python (Finite 27).
Proof.
  unfold Examples.unit_spacing. rewrite init_Volume, cube3_voxels.
  do 2 f_equal. lra.
Qed.

Lemma cube3_surf (w : Z) (ax : axis) :
  (2 <= w)%Z -> surf ax (Mask.padded (Examples.cube3 (Int w))) = 18%Z.
Proof.
  intros Hw. rewrite (surf_signed_exact _ _ w).
  - apply cube3_faces.
  - apply dtype_padded.
  - assumption.
  - apply cube3_binary.
  - vm_compute. reflexivity.
Qed.

Lemma cube3_SurfaceArea (w : Z) :
  (2 <= w)%Z ->
  SurfaceArea (init Examples.unit_spacing (Examples.cube3 (Int w)))
  = Num Numpy64 (Finite 54).
Proof.
  intros Hw. rewrite init_SurfaceArea.
  rewrite (surface_area_value _ 1 1 1) by reflexivity.
  rewrite init_maskArray, !cube3_surf by assumption.
  do 2 f_equal. lra.
Qed.

(** The 3x3x3 all-true mask with spacing (1,1,1), stored with a signed
    element type: the padded mask is 5x5x5 with exactly the 3x3x3 centre
    true, the volume is 27, the surface area 54, the surface to volume
    ratio 2 and Compactness2 is [36 pi 27^2 / 54^3], which is 0.5236 to
    four decimals. *)
Theorem cube3_example (w : Z) :
  (2 <= w)%Z ->
  let self := init Examples.unit_spacing (Examples.cube3 (Int w)) in
  shape (maskArray self) = (5, 5, 5)%nat /\
  ravel (maskArray self) = PaddedCube.elements /\
  getVolumeFeatureValue self = Num Python (Finite 27) /\
  getSurfaceAreaFeatureValue self = Num Numpy64 (Finite 54) /\
  Outcome.returns (getSurfaceVolumeRatioFeatureValue self) 2 /\
  Outcome.returns (getCompactness2FeatureValue self)
    (36 * PI * 27 ^ 2 / 54 ^ 3) /\
  Rabs (36 * PI * 27 ^ 2 / 54 ^ 3 - 0.5236) < 0.00005.
Proof.
  intros Hw self.
  pose proof (cube3_Volume (Int w)) as HV.
  pose proof (cube3_SurfaceArea w Hw) as HA.
  fold self in HV, HA.
  assert (HV' : value (Volume self) = Finite 27) by now rewrite HV.
  assert (HA' : value (SurfaceArea self) = Finite 54) by now rewrite HA.
  split; [reflexivity|]. split; [reflexivity|].
  split; [unfold self; now rewrite init_getVolume|].
  split; [unfold self in *; now rewrite <- init_SurfaceArea|].
  split.
  - replace 2 with (54 / 27) by lra.
    apply ratio_value; assumption || lra.
  - split.
    + replace (36 * PI * 27 ^ 2 / 54 ^ 3)
        with (36 * PI * (27 * 27) / (54 * 54 * 54)) by (field; lra).
      apply compactness2_value; assumption || lra.
    + pose proof PI_bounds. apply Rabs_def1; lra.
Qed.

Lemma cube3_example_witness :
  let self := init Examples.unit_spacing (Examples.cube3 (Int 8)) in
  shape (maskArray self) = (5, 5, 5)%nat /\
  ravel (maskArray self) = PaddedCube.elements /\
  getVolumeFeatureValue self = Num Python (Finite 27) /\
  getSurfaceAreaFeatureValue self = Num Numpy64 (Finite 54) /\
  Outcome.returns (getSurfaceVolumeRatioFeatureValue self) 2 /\
  Outcome.returns (getCompactness2FeatureValue self)
    (36 * PI * 27 ^ 2 / 54 ^ 3) /\
  Rabs (36 * PI * 27 ^ 2 / 54 ^ 3 - 0.5236) < 0.00005.
Proof. apply (cube3_example 8). lia. Defined.

End Cube.

(** ** The 3x3x3 cube as a label image *)

Section CubeAsLabel.

Local Open Scope R_scope.

Lemma cube3_uint8_surf (ax : axis) :
  surf ax (Mask.padded (Examples.cube3 (UInt 8))) = 2304%Z.
Proof. destruct ax; vm_compute; reflexivity. Qed.

(** C2, at the 3x3x3 all-true mask stored as [uint8], the usual type of a
    label image, with spacing (1,1,1). The padded mask is 5x5x5 with exactly
    the 3x3x3 centre true and the volume is 27, as the claim says; 18 pairs
    of neighbours differ across each axis, but the 9 differences [0 - 1]
    wrap to 255, so each of the three sums is 9 + 9 * 255 = 2304: the
    surface area returned is 6912 where the claim gives 54, the surface to
    volume ratio 256 where it gives 2, and Compactness2 is
    [36 pi 27^2 / 6912^3], below a millionth, where it gives 0.5236. *)
Theorem cube3_uint8_example :
  let self := init Examples.unit_spacing (Examples.cube3 (UInt 8)) in
  shape (maskArray self) = (5, 5, 5)%nat /\
  ravel (maskArray self) = PaddedCube.elements /\
  getVolumeFeatureValue self = Num Python (Finite 27) /\
  (forall ax, Mask.faces ax (maskArray self) = 18%Z) /\
  (forall ax, surf ax (maskArray self) = 2304%Z) /\
  getSurfaceAreaFeatureValue self = Num Numpy64 (Finite 6912) /\
  Outcome.returns (getSurfaceVolumeRatioFeatureValue self) 256 /\
  Outcome.returns (getCompactness2FeatureValue self)
    (36 * PI * 27 ^ 2 / 6912 ^ 3) /\
  36 * PI * 27 ^ 2 / 6912 ^ 3 < 0.000001.
Proof.
  intros self.
  pose proof (cube3_Volume (UInt 8)) as HV. fold self in HV.
  assert (HA : SurfaceArea self = Num Numpy64 (Finite 6912)).
  { unfold self. rewrite init_SurfaceArea.
    rewrite (surface_area_value _ 1 1 1) by reflexivity.
    rewrite init_maskArray, !cube3_uint8_surf. do 2 f_equal. lra. }
  assert (HV' : value (Volume self) = Finite 27) by now rewrite HV.
  assert (HA' : value (SurfaceArea self) = Finite 6912) by now rewrite HA.
  split; [reflexivity|]. split; [reflexivity|].
  split; [unfold self; now rewrite init_getVolume|].
  split; [intros ax; unfold self; rewrite init_maskArray; apply cube3_faces|].
  split; [intros ax; unfold self; rewrite init_maskArray;
          apply cube3_uint8_surf|].
  split; [unfold self in *; now rewrite <- init_SurfaceArea|].
  split.
  - replace 256 with (6912 / 27) by lra.
    apply ratio_value; assumption || lra.
  - split.
    + replace (36 * PI * 27 ^ 2 / 6912 ^ 3)
        with (36 * PI * (27 * 27) / (6912 * 6912 * 6912)) by (field; lra).
      apply compactness2_value; assumption || lra.
    + pose proof PI_bounds. lra.
Qed.

End CubeAsLabel.

(** ** Padding *)

Section Padding.

Local Open Scope Z_scope.

Lemma item_padded (m : ndarray) (d h w k j i : nat) :
  shape m = (d, h, w) ->
  item (Mask.padded m) (k, j, i) =
  if in_boundsb (d, h, w) (k - 1, j - 1, i - 1)%nat
     && (1 <=? k)%nat && (1 <=? j)%nat && (1 <=? i)%nat
  then item m (k - 1, j - 1, i - 1)%nat
  else 0.
Proof.
  intros H. unfold Mask.padded, Sitk.ConstantPadImageFilter. rewrite H.
  reflexivity.
Qed.

Lemma in_boundsb_spec (sh ix : index) :
  in_boundsb sh ix = true <-> in_bounds sh ix.
Proof.
  destruct sh as [[d h] w], ix as [[k j] i]. unfold in_boundsb, in_bounds.
  rewrite !andb_true_iff, !Nat.ltb_lt. tauto.
Qed.

(** Inside the shell the padded mask is the mask, shifted by one. *)
Lemma item_padded_inner (m : ndarray) (k j i : nat) :
  in_bounds (shape m) (k, j, i) ->
  item (Mask.padded m) (S k, S j, S i) = item m (k, j, i).
Proof.
  intros Hb. destruct (shape m) as [[d h] w] eqn:E.
  rewrite (item_padded m d h w) by assumption.
  replace (S k - 1)%nat with k by lia.
  replace (S j - 1)%nat with j by lia.
  replace (S i - 1)%nat with i by lia.
  apply in_boundsb_spec in Hb. rewrite Hb. reflexivity.
Qed.

(** On the shell (and beyond) the padded mask is 0. *)
Lemma item_padded_shell (m : ndarray) (d h w k j i : nat) :
  shape m = (d, h, w) ->
  (k = 0 \/ j = 0 \/ i = 0 \/ d < k \/ h < j \/ w < i)%nat ->
  item (Mask.padded m) (k, j, i) = 0.
Proof.
  intros E H. rewrite (item_padded m d h w) by assumption.
  destruct (in_boundsb (d, h, w) (k - 1, j - 1, i - 1)%nat
            && (1 <=? k)%nat && (1 <=? j)%nat && (1 <=? i)%nat) eqn:B;
    [|reflexivity].
  rewrite !andb_true_iff, !Nat.leb_le in B.
  destruct B as [[[B B1] B2] B3]. apply in_boundsb_spec in B. simpl in B. lia.
Qed.

Lemma item_padded_cases (m : ndarray) (ix : index) :
  item (Mask.padded m) ix = 0 \/
  exists ix', in_bounds (shape m) ix' /\ item (Mask.padded m) ix = item m ix'.
Proof.
  destruct ix as [[k j] i]. destruct (shape m) as [[d h] w] eqn:E.
  rewrite (item_padded m d h w) by assumption.
  destruct (in_boundsb (d, h, w) (k - 1, j - 1, i - 1)%nat
            && (1 <=? k)%nat && (1 <=? j)%nat && (1 <=? i)%nat) eqn:B;
    [right|now left].
  rewrite !andb_true_iff in B. destruct B as [[[B _] _] _].
  apply in_boundsb_spec in B. eexists. split; [exact B|reflexivity].
Qed.

Lemma binary_padded (m : ndarray) : Mask.binary m -> Mask.binary (Mask.padded m).
Proof.
  intros Hb. apply binary_intro. intros ix _.
  destruct (item_padded_cases m ix) as [H|(ix' & Hin & H)].
  - now left.
  - rewrite H. now apply binary_item.
Qed.

End Padding.

Section PaddingInvariant.

Local Open Scope nat_scope.

(** C8. For a mask of shape (D, H, W) the mask array that [__init__]
    stores has shape (D+2, H+2, W+2), is 0 on the one-voxel shell of every
    face and is the input mask inside; every element of the three
    difference arrays of [getSurfaceAreaFeatureValue] is then read from two
    indices that both lie within the padded array. *)
Theorem padded_mask_shape_and_bounds
    (sp : R * R * R) (m : ndarray) (d h w : nat) :
  shape m = (d, h, w) ->
  let p := maskArray (init sp m) in
  shape p = (d + 2, h + 2, w + 2) /\
  (forall k j i,
      in_bounds (shape p) (k, j, i) ->
      k = 0 \/ k = d + 1 \/ j = 0 \/ j = h + 1 \/ i = 0 \/ i = w + 1 ->
      item p (k, j, i) = 0%Z) /\
  (forall k j i,
      in_bounds (d, h, w) (k, j, i) ->
      item p (S k, S j, S i) = item m (k, j, i)) /\
  (forall ax ix,
      in_bounds (shape (subtract (from_second ax p) (but_last ax p))) ix ->
      item (from_second ax p) ix = item p (next ax ix) /\
      item (but_last ax p) ix = item p ix /\
      in_bounds (shape p) (next ax ix) /\
      in_bounds (shape p) ix).
Proof.
  intros Hs p. unfold p. rewrite init_maskArray.
  assert (Hp : shape (Mask.padded m) = (d + 2, h + 2, w + 2)).
  { rewrite (shape_padded m d h w Hs). f_equal; [f_equal|]; lia. }
  split; [exact Hp|]. split; [|split].
  - intros k j i _ H. apply (item_padded_shell m d h w); [assumption|lia].
  - intros k j i Hb. apply item_padded_inner. now rewrite Hs.
  - intros ax ix Hb. split; [reflexivity|]. split; [reflexivity|].
    cbn [subtract from_second view shape] in Hb.
    apply in_bounds_shorten in Hb. tauto.
Qed.

Lemma padded_mask_shape_and_bounds_witness :
  let m := Examples.cube3 (Int 16) in
  let p := maskArray (init Examples.unit_spacing m) in
  shape p = (3 + 2, 3 + 2, 3 + 2) /\
  (forall k j i,
      in_bounds (shape p) (k, j, i) ->
      k = 0 \/ k = 3 + 1 \/ j = 0 \/ j = 3 + 1 \/ i = 0 \/ i = 3 + 1 ->
      item p (k, j, i) = 0%Z) /\
  (forall k j i,
      in_bounds (3, 3, 3) (k, j, i) ->
      item p (S k, S j, S i) = item m (k, j, i)) /\
  (forall ax ix,
      in_bounds (shape (subtract (from_second ax p) (but_last ax p))) ix ->
      item (from_second ax p) ix = item p (next ax ix) /\
      item (but_last ax p) ix = item p ix /\
      in_bounds (shape p) (next ax ix) /\
      in_bounds (shape p) ix).
Proof.
  intros m.
  apply (padded_mask_shape_and_bounds Examples.unit_spacing m 3 3 3).
  reflexivity.
Defined.

End PaddingInvariant.

(** ** A region without voxels *)

Section EmptyRegion.

Local Open Scope Z_scope.

Lemma list_sum_zero {A : Type} (f : A -> Z) (l : list A) :
  (forall x, In x l -> f x = 0) -> list_sum (map f l) = 0.
Proof.
  intros H. induction l as [|x l IH]; [reflexivity|].
  cbn [map list_sum fold_right]. fold (list_sum (map f l)).
  rewrite H by (now left). rewrite IH; [reflexivity|].
  intros y Hy. apply H. now right.
Qed.

Lemma surf_all_zero (ax : axis) (m : ndarray) :
  (forall ix, item m ix = 0) -> surf ax m = 0.
Proof.
  intros H. rewrite surf_unfold. rewrite list_sum_zero.
  - apply wrap_0.
  - intros ix _. rewrite !H. change (0 - 0) with 0.
    rewrite wrap_0. change (Z.abs 0) with 0. apply wrap_0.
Qed.

Lemma no_voxels_all_zero (m : ndarray) :
  Mask.voxels m = 0 ->
  forall ix, in_bounds (shape m) ix -> item m ix = 0.
Proof.
  unfold Mask.voxels, nonzero_indices. intros H ix Hix.
  destruct (Z.eq_dec (item m ix) 0) as [E|N]; [assumption|exfalso].
  assert (Hin : In ix (filter (fun ix => negb (item m ix =? 0))
                              (indices (shape m)))).
  { apply filter_In. split; [now apply in_indices|].
    apply negb_true_iff, Z.eqb_neq, N. }
  destruct (filter _ _); [contradiction|discriminate].
Qed.

Lemma padded_all_zero (m : ndarray) :
  Mask.voxels m = 0 -> forall ix, item (Mask.padded m) ix = 0.
Proof.
  intros H ix. destruct (item_padded_cases m ix) as [E|(ix' & Hin & E)].
  - exact E.
  - rewrite E. now apply no_voxels_all_zero.
Qed.

Lemma all_zero_no_voxels (m : ndarray) :
  (forall ix, item m ix = 0) -> Mask.voxels m = 0.
Proof.
  intros H. unfold Mask.voxels, nonzero_indices.
  replace (filter _ _) with (@nil index); [reflexivity|].
  symmetry. induction (indices (shape m)) as [|ix l IH]; [reflexivity|].
  cbn [filter]. rewrite H. cbn. exact IH.
Qed.

End EmptyRegion.

Section Degenerate.

Local Open Scope R_scope.

Variable self : RadiomicsShape.
Variables V A : R.
Hypothesis Volume_python : Volume self = Num Python (Finite V).
Hypothesis SurfaceArea_numpy : SurfaceArea self = Num Numpy64 (Finite A).
Hypothesis V_zero : V = 0.
Hypothesis A_zero : A = 0.

Lemma div_zero_zero (a b : num) (x y : R) :
  value a = Finite x -> value b = Finite y -> x = 0 -> y = 0 ->
  result_kind a b = Numpy64 ->
  div a b = Ok (Num Numpy64 NaN).
Proof.
  intros Ha Hb -> ->. now apply div_zero_zero_numpy.
Qed.

Ltac start f :=
  unfold f; rewrite ?Volume_python, ?SurfaceArea_numpy; subst V A;
  unfold mul, np_sqrt, pi, py; cbn [value fmul kind_of result_kind].

Ltac nan :=
  erewrite div_zero_zero;
  [reflexivity|reflexivity|reflexivity|try lra|try lra|reflexivity].

Lemma ratio_nan :
  getSurfaceVolumeRatioFeatureValue self = Ok (Num Numpy64 NaN).
Proof. start getSurfaceVolumeRatioFeatureValue. nan. Qed.

Lemma compactness1_nan :
  getCompactness1FeatureValue self = Ok (Num Numpy64 NaN).
Proof.
  start getCompactness1FeatureValue.
  rewrite pow_zero by lra. cbn [bind value].
  assert (Hs : fsqrt (Finite PI) = Finite (sqrt PI)).
  { unfold fsqrt. pose proof PI_RGT_0.
    destruct (Rlt_dec PI 0); [lra|reflexivity]. }
  rewrite Hs. cbn [fmul]. nan.
Qed.

Lemma compactness2_nan :
  getCompactness2FeatureValue self = Ok (Num Numpy64 NaN).
Proof.
  start getCompactness2FeatureValue.
  rewrite pow_zero by lra. cbn [bind].
  rewrite pow_zero by lra. cbn [bind value fmul]. nan.
Qed.

Lemma disproportion_nan :
  getSphericalDisproportionFeatureValue self = Ok (Num Numpy64 NaN).
Proof.
  pose proof PI_RGT_0.
  start getSphericalDisproportionFeatureValue.
  erewrite div_finite; [|reflexivity|reflexivity|lra].
  cbn [bind result_kind kind_of].
  replace (3 * 0 / (4 * PI)) with 0 by (field; lra).
  rewrite pow_zero by lra. cbn [bind].
  rewrite pow_zero by lra. cbn [bind value fmul]. nan.
Qed.

Lemma sphericity_nan :
  getSphericityFeatureValue self = Ok (Num Numpy64 NaN).
Proof.
  pose proof PI_RGT_0.
  start getSphericityFeatureValue.
  rewrite pow_pos by lra. cbn [bind].
  replace (6 * 0) with 0 by lra.
  rewrite pow_zero by lra. cbn [bind value fmul]. nan.
Qed.

End Degenerate.

Section DegenerateRegion.

Local Open Scope R_scope.

Lemma non_finite_nan (r : result num) :
  r = Ok (Num Numpy64 NaN) -> Outcome.returns_non_finite r.
Proof. intros ->. eexists. split; reflexivity. Qed.

(** C7. For a mask without a true voxel the volume is 0, and
    [getSurfaceVolumeRatioFeatureValue], [getCompactness1FeatureValue],
    [getCompactness2FeatureValue], [getSphericalDisproportionFeatureValue]
    and [getSphericityFeatureValue] each return without raising, and what
    they return is not finite (it is NaN). *)
Theorem empty_region_non_finite (sp : R * R * R) (m : ndarray) :
  Mask.voxels m = 0%Z ->
  let self := init sp m in
  (exists V, getVolumeFeatureValue self = Num Python (Finite V) /\ V = 0) /\
  Outcome.returns_non_finite (getSurfaceVolumeRatioFeatureValue self) /\
  Outcome.returns_non_finite (getCompactness1FeatureValue self) /\
  Outcome.returns_non_finite (getCompactness2FeatureValue self) /\
  Outcome.returns_non_finite (getSphericalDisproportionFeatureValue self) /\
  Outcome.returns_non_finite (getSphericityFeatureValue self).
Proof.
  intros Hm self. destruct sp as [[sx sy] sz].
  pose proof (padded_all_zero m Hm) as Hz.
  assert (HV : Volume self
               = Num Python (Finite (IZR (Mask.voxels (Mask.padded m))
                                     * (sx * sy * sz))))
    by apply init_Volume.
  assert (HV0 : IZR (Mask.voxels (Mask.padded m)) * (sx * sy * sz) = 0).
  { rewrite all_zero_no_voxels by assumption. lra. }
  assert (HA : SurfaceArea self
               = Num Numpy64
                   (Finite (IZR (surf Axis2 (Mask.padded m)) * (sy * sz)
                            + IZR (surf Axis1 (Mask.padded m)) * (sx * sz)
                            + IZR (surf Axis0 (Mask.padded m)) * (sx * sy)))).
  { unfold self. rewrite init_SurfaceArea.
    now rewrite (surface_area_value _ sx sy sz), init_maskArray. }
  assert (HA0 : IZR (surf Axis2 (Mask.padded m)) * (sy * sz)
                + IZR (surf Axis1 (Mask.padded m)) * (sx * sz)
                + IZR (surf Axis0 (Mask.padded m)) * (sx * sy) = 0).
  { rewrite !surf_all_zero by assumption. lra. }
  split.
  - eexists. split; [|exact HV0]. unfold self. now rewrite init_getVolume.
  - repeat split; apply non_finite_nan.
    + exact (ratio_nan self _ _ HV HA HV0 HA0).
    + exact (compactness1_nan self _ _ HV HA HV0 HA0).
    + exact (compactness2_nan self _ _ HV HA HV0 HA0).
    + exact (disproportion_nan self _ _ HV HA HV0 HA0).
    + exact (sphericity_nan self _ _ HV HA HV0 HA0).
Qed.

Lemma empty_region_non_finite_witness :
  let self := init Examples.unit_spacing (Examples.empty (UInt 8)) in
  (exists V, getVolumeFeatureValue self = Num Python (Finite V) /\ V = 0) /\
  Outcome.returns_non_finite (getSurfaceVolumeRatioFeatureValue self) /\
  Outcome.returns_non_finite (getCompactness1FeatureValue self) /\
  Outcome.returns_non_finite (getCompactness2FeatureValue self) /\
  Outcome.returns_non_finite (getSphericalDisproportionFeatureValue self) /\
  Outcome.returns_non_finite (getSphericityFeatureValue self).
Proof.
  apply (empty_region_non_finite Examples.unit_spacing
           (Examples.empty (UInt 8))).
  reflexivity.
Defined.

End DegenerateRegion.

(** ** Finite sums *)

Section Sums.

Import Lines.

Local Open Scope Z_scope.

Lemma sum_n_ext (n : nat) (f g : nat -> Z) :
  (forall i, (i < n)%nat -> f i = g i) -> sum_n n f = sum_n n g.
Proof.
  induction n as [|n IH]; intros H; [reflexivity|].
  cbn [sum_n]. rewrite IH, H by (intros; try apply H; lia). reflexivity.
Qed.

Lemma sum_n_le (n : nat) (f g : nat -> Z) :
  (forall i, (i < n)%nat -> f i <= g i) -> sum_n n f <= sum_n n g.
Proof.
  induction n as [|n IH]; intros H; [reflexivity|].
  cbn [sum_n]. specialize (H n (Nat.lt_succ_diag_r n)) as Hn.
  assert (sum_n n f <= sum_n n g) by (apply IH; intros; apply H; lia).
  lia.
Qed.

Lemma sum_n_zero (n : nat) : sum_n n (fun _ => 0) = 0.
Proof. induction n as [|n IH]; cbn [sum_n]; lia. Qed.

Lemma sum_n_nonneg (n : nat) (f : nat -> Z) :
  (forall i, (i < n)%nat -> 0 <= f i) -> 0 <= sum_n n f.
Proof.
  intros H. rewrite <- (sum_n_zero n). now apply sum_n_le.
Qed.

Lemma sum_n_plus (n : nat) (f g : nat -> Z) :
  sum_n n (fun i => f i + g i) = sum_n n f + sum_n n g.
Proof. induction n as [|n IH]; cbn [sum_n]; lia. Qed.

Lemma sum_n_minus (n : nat) (f g : nat -> Z) :
  sum_n n (fun i => f i - g i) = sum_n n f - sum_n n g.
Proof. induction n as [|n IH]; cbn [sum_n]; lia. Qed.

Lemma sum_n_scal_l (n : nat) (c : Z) (f : nat -> Z) :
  sum_n n (fun i => c * f i) = c * sum_n n f.
Proof. induction n as [|n IH]; cbn [sum_n]; lia. Qed.

Lemma sum_n_scal_r (n : nat) (c : Z) (f : nat -> Z) :
  sum_n n (fun i => f i * c) = sum_n n f * c.
Proof. induction n as [|n IH]; cbn [sum_n]; lia. Qed.

(** The order of two nested sums does not matter. *)
Lemma sum_n_swap (n m : nat) (f : nat -> nat -> Z) :
  sum_n n (fun i => sum_n m (fun j => f i j))
  = sum_n m (fun j => sum_n n (fun i => f i j)).
Proof.
  induction n as [|n IH]; cbn [sum_n].
  - now rewrite sum_n_zero.
  - rewrite IH, <- sum_n_plus. reflexivity.
Qed.

Lemma sum_n_first (n : nat) (f : nat -> Z) :
  sum_n (S n) f = f O + sum_n n (fun i => f (S i)).
Proof.
  induction n as [|n IH]; [cbn; lia|].
  change (sum_n (S (S n)) f) with (sum_n (S n) f + f (S n)).
  rewrite IH. cbn [sum_n]. lia.
Qed.

Lemma sum_n_split (n m : nat) (f : nat -> Z) :
  sum_n (n + m) f = sum_n n f + sum_n m (fun i => f (n + i)%nat).
Proof.
  induction m as [|m IH].
  - rewrite Nat.add_0_r. cbn [sum_n]. lia.
  - rewrite Nat.add_succ_r. cbn [sum_n]. rewrite IH. lia.
Qed.

(** A sum of consecutive differences telescopes. *)
Lemma sum_n_telescope (n : nat) (f : nat -> Z) :
  sum_n n (fun t => f (S t) - f t) = f n - f O.
Proof. induction n as [|n IH]; cbn [sum_n]; lia. Qed.

Lemma sum_n_abs_telescope (n : nat) (f : nat -> Z) :
  Z.abs (f n - f O) <= sum_n n (fun t => Z.abs (f (S t) - f t)).
Proof. induction n as [|n IH]; cbn [sum_n]; lia. Qed.

Lemma list_sum_seq (n : nat) (f : nat -> Z) :
  list_sum (map f (seq 0 n)) = sum_n n f.
Proof.
  induction n as [|n IH]; [reflexivity|].
  rewrite seq_S, map_app, list_sum_app, IH. cbn. lia.
Qed.

Lemma list_sum_flat_map {A B : Type} (g : B -> Z) (h : A -> list B) (l : list A) :
  list_sum (map g (flat_map h l))
  = list_sum (map (fun x => list_sum (map g (h x))) l).
Proof.
  induction l as [|x l IH]; [reflexivity|].
  cbn [flat_map map]. rewrite map_app, list_sum_app, IH. reflexivity.
Qed.

(** A sum over all indices of a shape, as three nested sums. *)
Lemma list_sum_indices (g : index -> Z) (d h w : nat) :
  list_sum (map g (indices (d, h, w)))
  = sum_n d (fun k => sum_n h (fun j => sum_n w (fun i => g (k, j, i)))).
Proof.
  unfold indices. rewrite list_sum_flat_map, list_sum_seq.
  apply sum_n_ext. intros k _.
  rewrite list_sum_flat_map, list_sum_seq.
  apply sum_n_ext. intros j _.
  rewrite map_map. apply list_sum_seq.
Qed.

End Sums.

(** ** Sums along the lines of an axis *)

Section LineSums.

Import Lines.

Local Open Scope Z_scope.

Lemma sum_lines (ax : axis) (g : index -> Z) (sh : index) :
  list_sum (map g (indices sh))
  = sum_n (fst (across ax sh)) (fun u =>
      sum_n (snd (across ax sh)) (fun v =>
        sum_n (along ax sh) (fun t => g (place ax u v t)))).
Proof.
  destruct sh as [[d h] w]. rewrite list_sum_indices.
  destruct ax; cbn [across along place fst snd].
  - rewrite sum_n_swap. apply sum_n_ext. intros j _. apply sum_n_swap.
  - apply sum_n_ext. intros k _. apply sum_n_swap.
  - reflexivity.
Qed.

Lemma across_shorten (ax : axis) (sh : index) :
  across ax (shorten ax sh) = across ax sh.
Proof. destruct sh as [[d h] w], ax; reflexivity. Qed.

Lemma along_shorten (ax : axis) (sh : index) :
  along ax (shorten ax sh) = Nat.pred (along ax sh).
Proof. destruct sh as [[d h] w], ax; reflexivity. Qed.

Lemma next_place (ax : axis) (u v t : nat) :
  next ax (place ax u v t) = place ax u v (S t).
Proof. destruct ax; reflexivity. Qed.

Lemma in_bounds_place (ax : axis) (sh : index) (u v t : nat) :
  (u < fst (across ax sh))%nat -> (v < snd (across ax sh))%nat ->
  (t < along ax sh)%nat ->
  in_bounds sh (place ax u v t).
Proof.
  destruct sh as [[d h] w], ax; cbn; lia.
Qed.

(** A sum over the adjacent pairs along [ax], line by line. *)
Lemma sum_pairs_lines (ax : axis) (G : Z -> Z -> Z) (m : ndarray) :
  list_sum (map (fun ix => G (item m ix) (item m (next ax ix)))
                (indices (shorten ax (shape m))))
  = sum_n (fst (across ax (shape m))) (fun u =>
      sum_n (snd (across ax (shape m))) (fun v =>
        sum_n (Nat.pred (along ax (shape m))) (fun t =>
          G (line ax m u v t) (line ax m u v (S t))))).
Proof.
  rewrite (sum_lines ax), across_shorten, along_shorten.
  apply sum_n_ext. intros u _. apply sum_n_ext. intros v _.
  apply sum_n_ext. intros t _. unfold line. now rewrite next_place.
Qed.

Lemma count_pairs_lines (p : Z -> Z -> bool) (ax : axis) (m : ndarray) :
  Mask.count_pairs p ax m
  = sum_n (fst (across ax (shape m))) (fun u =>
      sum_n (snd (across ax (shape m))) (fun v =>
        sum_n (Nat.pred (along ax (shape m))) (fun t =>
          indicator (p (line ax m u v t) (line ax m u v (S t)))))).
Proof.
  unfold Mask.count_pairs, Mask.pairs. rewrite <- list_sum_indicator.
  apply (sum_pairs_lines ax (fun a b => indicator (p a b))).
Qed.

Lemma voxels_lines (ax : axis) (m : ndarray) :
  Mask.voxels m
  = sum_n (fst (across ax (shape m))) (fun u =>
      sum_n (snd (across ax (shape m))) (fun v =>
        sum_n (along ax (shape m)) (fun t =>
          indicator (negb (line ax m u v t =? 0))))).
Proof.
  unfold Mask.voxels, nonzero_indices. rewrite <- list_sum_indicator.
  apply (sum_lines ax (fun ix => indicator (negb (item m ix =? 0)))).
Qed.

End LineSums.

(** ** Padding keeps the region *)

Section PaddingKeeps.

Import Lines.

Local Open Scope Z_scope.

Lemma sum_n_shell (n : nat) (f : nat -> Z) :
  f O = 0 -> f (S n) = 0 ->
  sum_n (S (n + 1)) f = sum_n n (fun i => f (S i)).
Proof.
  intros H0 Hn. rewrite sum_n_first, H0.
  rewrite Nat.add_1_r. cbn [sum_n]. rewrite Hn. lia.
Qed.

Lemma sum_n_all_zero (n : nat) (f : nat -> Z) :
  (forall i, f i = 0) -> sum_n n f = 0.
Proof.
  intros H. rewrite <- (sum_n_zero n). apply sum_n_ext. intros; apply H.
Qed.

(** A sum over the padded mask of a function that vanishes at 0 is the
    sum over the mask. *)
Lemma sum_padded (g : Z -> Z) (m : ndarray) :
  g 0 = 0 ->
  list_sum (map (fun ix => g (item (Mask.padded m) ix))
                (indices (shape (Mask.padded m))))
  = list_sum (map (fun ix => g (item m ix)) (indices (shape m))).
Proof.
  intros Hg. destruct (shape m) as [[d h] w] eqn:E.
  rewrite (shape_padded m d h w E), !list_sum_indices.
  assert (Z0 : forall k j i,
             (k = 0 \/ j = 0 \/ i = 0 \/ d < k \/ h < j \/ w < i)%nat ->
             g (item (Mask.padded m) (k, j, i)) = 0).
  { intros k j i H. now rewrite (item_padded_shell m d h w). }
  rewrite sum_n_shell.
  - apply sum_n_ext. intros k Hk. rewrite sum_n_shell.
    + apply sum_n_ext. intros j Hj. rewrite sum_n_shell.
      * apply sum_n_ext. intros i Hi. rewrite item_padded_inner; [reflexivity|].
        rewrite E. cbn. lia.
      * apply Z0. lia.
      * apply Z0. lia.
    + apply sum_n_all_zero. intros i. apply Z0. lia.
    + apply sum_n_all_zero. intros i. apply Z0. lia.
  - apply sum_n_all_zero. intros j. apply sum_n_all_zero. intros i.
    apply Z0. lia.
  - apply sum_n_all_zero. intros j. apply sum_n_all_zero. intros i.
    apply Z0. lia.
Qed.

Lemma voxels_sum (m : ndarray) :
  Mask.voxels m
  = list_sum (map (fun ix => indicator (negb (item m ix =? 0)))
                  (indices (shape m))).
Proof.
  unfold Mask.voxels, nonzero_indices. now rewrite <- list_sum_indicator.
Qed.

Lemma voxels_padded (m : ndarray) :
  Mask.voxels (Mask.padded m) = Mask.voxels m.
Proof.
  rewrite !voxels_sum.
  apply (sum_padded (fun v => indicator (negb (v =? 0)))). reflexivity.
Qed.

End PaddingKeeps.

(** ** Reordering the voxels *)

Section Reordering.

Import Lines.

Local Open Scope Z_scope.

Lemma list_sum_permutation (l l' : list Z) :
  Permutation l l' -> list_sum l = list_sum l'.
Proof.
  unfold list_sum.
  induction 1 as [|x l l' _ IH|x y l|l l' l'' _ IH1 _ IH2];
    cbn [fold_right] in *; lia.
Qed.

Lemma voxels_ravel (m : ndarray) :
  Mask.voxels m
  = list_sum (map (fun v => indicator (negb (v =? 0))) (ravel m)).
Proof. rewrite voxels_sum. unfold ravel. now rewrite map_map. Qed.

Lemma voxels_reordered (m m' : ndarray) :
  Shuffle.reordered m m' -> Mask.voxels m = Mask.voxels m'.
Proof.
  intros (_ & _ & Hp). rewrite !voxels_ravel.
  apply list_sum_permutation. now apply Permutation_map.
Qed.

(** C9, as amended. [getVolumeFeatureValue] returns the same value on a
    mask and on the mask with its voxels stored in any other order. *)
Theorem volume_reordering_invariant (sp : R * R * R) (m m' : ndarray) :
  Shuffle.reordered m m' ->
  getVolumeFeatureValue (init sp m) = getVolumeFeatureValue (init sp m').
Proof.
  intros H. destruct sp as [[sx sy] sz].
  rewrite !init_getVolume, !init_Volume, !voxels_padded.
  now rewrite (voxels_reordered m m').
Qed.

Lemma together_apart_reordered : Shuffle.reordered Shuffle.together Shuffle.apart.
Proof.
  split; [reflexivity|]. split; [reflexivity|].
  apply perm_skip. apply perm_swap.
Qed.

Lemma volume_reordering_invariant_witness :
  getVolumeFeatureValue (init Examples.unit_spacing Shuffle.together)
  = getVolumeFeatureValue (init Examples.unit_spacing Shuffle.apart).
Proof.
  apply (volume_reordering_invariant Examples.unit_spacing
           Shuffle.together Shuffle.apart).
  split; [reflexivity|]. split; [reflexivity|].
  apply perm_skip. apply perm_swap.
Defined.

(** C9, as stated, fails for the surface area: two voxels side by side
    have 10 exposed faces, the same two voxels one apart have 12. *)
Lemma surface_area_changes_under_reordering :
  Shuffle.reordered Shuffle.together Shuffle.apart /\
  getSurfaceAreaFeatureValue (init Examples.unit_spacing Shuffle.together)
    = Num Numpy64 (Finite 10) /\
  getSurfaceAreaFeatureValue (init Examples.unit_spacing Shuffle.apart)
    = Num Numpy64 (Finite 12) /\
  getSurfaceAreaFeatureValue (init Examples.unit_spacing Shuffle.together)
    <> getSurfaceAreaFeatureValue (init Examples.unit_spacing Shuffle.apart).
Proof.
  assert (H1 : getSurfaceAreaFeatureValue
                 (init Examples.unit_spacing Shuffle.together)
               = Num Numpy64 (Finite 10)).
  { rewrite (surface_area_value _ 1 1 1) by reflexivity.
    rewrite init_maskArray.
    replace (surf Axis2 (Mask.padded Shuffle.together)) with 2
      by (vm_compute; reflexivity).
    replace (surf Axis1 (Mask.padded Shuffle.together)) with 4
      by (vm_compute; reflexivity).
    replace (surf Axis0 (Mask.padded Shuffle.together)) with 4
      by (vm_compute; reflexivity).
    do 2 f_equal. lra. }
  assert (H2 : getSurfaceAreaFeatureValue
                 (init Examples.unit_spacing Shuffle.apart)
               = Num Numpy64 (Finite 12)).
  { rewrite (surface_area_value _ 1 1 1) by reflexivity.
    rewrite init_maskArray.
    replace (surf Axis2 (Mask.padded Shuffle.apart)) with 4
      by (vm_compute; reflexivity).
    replace (surf Axis1 (Mask.padded Shuffle.apart)) with 4
      by (vm_compute; reflexivity).
    replace (surf Axis0 (Mask.padded Shuffle.apart)) with 4
      by (vm_compute; reflexivity).
    do 2 f_equal. lra. }
  split; [exact together_apart_reordered|].
  split; [exact H1|]. split; [exact H2|].
  rewrite H1, H2. intros E. injection E as E. lra.
Qed.

End Reordering.

(** ** Unsigned element types *)

Section Unsigned.

Import Lines.

Local Open Scope Z_scope.

Lemma filter_length_ext {A : Type} (p q : A -> bool) (l : list A) :
  (forall x, In x l -> p x = q x) ->
  length (filter p l) = length (filter q l).
Proof.
  intros H. induction l as [|x l IH]; [reflexivity|].
  cbn [filter]. rewrite (H x) by (now left).
  destruct (q x); cbn [length]; rewrite IH; auto;
    intros y Hy; apply H; now right.
Qed.

Lemma binary_pair (ax : axis) (m : ndarray) (ix : index) :
  Mask.binary m -> In ix (indices (shorten ax (shape m))) ->
  (item m ix = 0 \/ item m ix = 1) /\
  (item m (next ax ix) = 0 \/ item m (next ax ix) = 1).
Proof.
  intros Hb Hix. apply in_indices, in_bounds_shorten in Hix.
  destruct Hix. split; now apply binary_item.
Qed.

(** Unsigned elements: a face entered in the direction of growing index
    adds 1 to the sum, a face left in that direction adds [2^w - 1]. *)
Lemma surf_unsigned (ax : axis) (m : ndarray) (w : Z) :
  dtype_of m = UInt w -> 1 <= w -> Mask.binary m ->
  surf ax m =
  wrap (UInt (Z.max w 64))
    (Mask.count_pairs Mask.entering ax m
     + (2 ^ w - 1) * Mask.count_pairs Mask.leaving ax m).
Proof.
  intros Hd Hw Hb. rewrite surf_unfold, Hd. cbn [sum_dtype]. f_equal.
  unfold Mask.count_pairs, Mask.pairs.
  rewrite (filter_length_ext
             (fun ix => Mask.leaving (item m ix) (item m (next ax ix)))
             (fun ix => negb (Mask.entering (item m ix) (item m (next ax ix)))
                        && Mask.leaving (item m ix) (item m (next ax ix)))).
  - rewrite <- list_sum_two_indicators. apply list_sum_map_ext.
    intros ix Hix. destruct (binary_pair ax m ix Hb Hix).
    now apply unsigned_term.
  - intros ix Hix. destruct (binary_pair ax m ix Hb Hix) as [[E|E] [F|F]];
      rewrite E, F; reflexivity.
Qed.

(** Every exposed face is entered or left. *)
Lemma faces_entering_leaving (ax : axis) (m : ndarray) :
  Mask.binary m ->
  Mask.faces ax m
  = Mask.count_pairs Mask.entering ax m + Mask.count_pairs Mask.leaving ax m.
Proof.
  intros Hb. unfold Mask.faces, Mask.count_pairs, Mask.pairs.
  rewrite <- Nat2Z.inj_add. f_equal.
  pose proof (binary_pair ax m) as Hp.
  induction (indices (shorten ax (shape m))) as [|ix l IH]; [reflexivity|].
  cbn [filter].
  destruct (Hp ix Hb (or_introl eq_refl)) as [[E|E] [F|F]]; rewrite E, F;
    cbn; rewrite IH; auto; intros; apply Hp; auto; now right.
Qed.

(** Along a line that starts and ends outside the region, it is entered
    as often as it is left. *)
Lemma line_entering_leaving (n : nat) (f : nat -> Z) :
  (forall t, (t <= n)%nat -> f t = 0 \/ f t = 1) ->
  f O = 0 -> f n = 0 ->
  sum_n n (fun t => indicator (Mask.entering (f t) (f (S t))))
  = sum_n n (fun t => indicator (Mask.leaving (f t) (f (S t)))).
Proof.
  intros Hb H0 Hn.
  assert (E : sum_n n (fun t => indicator (Mask.entering (f t) (f (S t)))
                                - indicator (Mask.leaving (f t) (f (S t))))
              = sum_n n (fun t => f (S t) - f t)).
  { apply sum_n_ext. intros t Ht.
    destruct (Hb t) as [E|E]; [lia| |]; destruct (Hb (S t)) as [F|F];
      try lia; rewrite E, F; reflexivity. }
  rewrite sum_n_minus, sum_n_telescope in E. lia.
Qed.

End Unsigned.

Section PaddedLines.

Import Lines.

Local Open Scope Z_scope.

Lemma padded_item_binary (m : ndarray) (ix : index) :
  Mask.binary m ->
  item (Mask.padded m) ix = 0 \/ item (Mask.padded m) ix = 1.
Proof.
  intros Hb. destruct (item_padded_cases m ix) as [H|(ix' & Hin & H)].
  - now left.
  - rewrite H. now apply binary_item.
Qed.

Lemma padded_line_first (ax : axis) (m : ndarray) (u v : nat) :
  line ax (Mask.padded m) u v O = 0.
Proof.
  destruct (shape m) as [[d h] w] eqn:E. unfold line.
  destruct ax; cbn [place]; apply (item_padded_shell m d h w);
    solve [exact E | lia].
Qed.

Lemma padded_line_last (ax : axis) (m : ndarray) (u v : nat) :
  line ax (Mask.padded m) u v (Nat.pred (along ax (shape (Mask.padded m)))) = 0.
Proof.
  destruct (shape m) as [[d h] w] eqn:E. unfold line.
  rewrite (shape_padded m d h w E).
  destruct ax; cbn [place along Nat.pred];
    apply (item_padded_shell m d h w); solve [exact E | lia].
Qed.

(** On the padded mask as many faces are entered as are left, along
    every axis. *)
Lemma padded_entering_leaving (ax : axis) (m : ndarray) :
  Mask.binary m ->
  Mask.count_pairs Mask.entering ax (Mask.padded m)
  = Mask.count_pairs Mask.leaving ax (Mask.padded m).
Proof.
  intros Hb. rewrite !count_pairs_lines.
  apply sum_n_ext. intros u _. apply sum_n_ext. intros v _.
  apply line_entering_leaving.
  - intros t _. now apply padded_item_binary.
  - apply padded_line_first.
  - apply padded_line_last.
Qed.

Lemma pow2_double (w : Z) : 1 <= w -> 2 ^ w = 2 * 2 ^ (w - 1).
Proof.
  intros Hw. replace w with (Z.succ (w - 1)) at 1 by lia.
  apply Z.pow_succ_r. lia.
Qed.

(** Unsigned elements, padded mask: each per-axis sum is [2^(w-1)] times
    the number of exposed faces, reduced into the accumulator. *)
Lemma surf_unsigned_padded (ax : axis) (m : ndarray) (w : Z) :
  dtype_of m = UInt w -> 1 <= w -> Mask.binary m ->
  surf ax (Mask.padded m)
  = wrap (UInt (Z.max w 64)) (2 ^ (w - 1) * Mask.faces ax (Mask.padded m)).
Proof.
  intros Hd Hw Hb.
  rewrite (surf_unsigned ax (Mask.padded m) w);
    [|now rewrite dtype_padded|assumption|now apply binary_padded].
  f_equal.
  rewrite (faces_entering_leaving ax (Mask.padded m)) by now apply binary_padded.
  rewrite (padded_entering_leaving ax m Hb), (pow2_double w Hw). ring.
Qed.

(** When the sums fit the accumulator, a per-axis sum is at least the
    number of exposed faces. *)
Lemma surf_at_least_faces (ax : axis) (m : ndarray) :
  Mask.binary m -> Mask.sums_fit (Mask.padded m) ->
  Mask.faces ax (Mask.padded m) <= surf ax (Mask.padded m).
Proof.
  intros Hb Hf. unfold Mask.sums_fit in Hf. rewrite dtype_padded in Hf.
  pose proof (count_pairs_le_size Mask.differ ax (Mask.padded m)) as Hc.
  fold (Mask.faces ax (Mask.padded m)) in Hc.
  destruct (dtype_of m) as [w|w] eqn:Hd; destruct Hf as [Hw Hs].
  - rewrite (surf_signed_exact ax (Mask.padded m) w); try assumption.
    + lia.
    + now rewrite dtype_padded.
    + now apply binary_padded.
  - rewrite (surf_unsigned_padded ax m w Hd Hw Hb).
    assert (P : 1 <= 2 ^ (w - 1)).
    { change 1 with (2 ^ 0). apply Z.pow_le_mono_r; lia. }
    rewrite wrap_unsigned_exact; nia.
Qed.

End PaddedLines.

Section UnsignedMasks.

Local Open Scope Z_scope.

(** C10, as amended. Under exact subtraction (a signed element type) each
    per-axis sum of [getSurfaceAreaFeatureValue] is the number of adjacent
    inside/outside pairs.  With [w]-bit unsigned elements [0 - 1] wraps to
    [2^w - 1]: an exposed face adds [2^w - 1] when its inside voxel has the
    lower index and 1 when its inside voxel has the higher index; on the
    padded mask the two kinds are equally many, so the sum is [2^(w-1)]
    times the number of exposed faces, reduced by the 64-bit accumulator of
    [numpy.sum]. *)
Theorem face_sum_by_element_type (ax : axis) (m : ndarray) (w : Z) :
  Mask.binary m ->
  let p := Mask.padded m in
  (dtype_of m = Int w -> 2 <= w -> Z.of_nat (size p) < 2 ^ 63 ->
   surf ax p = Mask.faces ax p) /\
  (dtype_of m = UInt w -> 1 <= w ->
   wrap (UInt w) (0 - 1) = 2 ^ w - 1 /\
   surf ax p
   = wrap (UInt (Z.max w 64))
       (Mask.count_pairs Mask.entering ax p
        + (2 ^ w - 1) * Mask.count_pairs Mask.leaving ax p) /\
   Mask.count_pairs Mask.entering ax p = Mask.count_pairs Mask.leaving ax p /\
   Mask.faces ax p = 2 * Mask.count_pairs Mask.leaving ax p /\
   surf ax p = wrap (UInt (Z.max w 64)) (2 ^ (w - 1) * Mask.faces ax p)).
Proof.
  intros Hb p. pose proof (binary_padded m Hb) as Hbp. fold p in Hbp.
  split.
  - intros Hd Hw Hs. apply (surf_signed_exact ax p w); try assumption.
    unfold p. now rewrite dtype_padded.
  - intros Hd Hw.
    assert (Hdp : dtype_of p = UInt w) by (unfold p; now rewrite dtype_padded).
    pose proof (surf_unsigned ax p w Hdp Hw Hbp) as Hsurf.
    pose proof (padded_entering_leaving ax m Hb) as Heq. fold p in Heq.
    pose proof (faces_entering_leaving ax p Hbp) as Hf.
    assert (H1 : wrap (UInt w) (0 - 1) = 2 ^ w - 1).
    { pose proof (pow2_ge_2 w Hw). unfold wrap.
      replace (0 - 1) with ((2 ^ w - 1) + (-1) * 2 ^ w) by lia.
      rewrite Z.mod_add by lia. apply Z.mod_small. lia. }
    split; [exact H1|]. split; [exact Hsurf|]. split; [exact Heq|].
    split; [lia|].
    rewrite Hsurf. f_equal. rewrite Hf, Heq.
    replace (2 ^ w) with (2 * 2 ^ (w - 1)).
    + ring.
    + replace w with (Z.succ (w - 1)) at 2 by lia.
      symmetry. apply Z.pow_succ_r. lia.
Qed.

Lemma face_sum_by_element_type_witness :
  let p := Mask.padded (Examples.voxel (UInt 8)) in
  (dtype_of (Examples.voxel (UInt 8)) = Int 8 -> 2 <= 8 ->
   Z.of_nat (size p) < 2 ^ 63 ->
   surf Axis2 p = Mask.faces Axis2 p) /\
  (dtype_of (Examples.voxel (UInt 8)) = UInt 8 -> 1 <= 8 ->
   wrap (UInt 8) (0 - 1) = 2 ^ 8 - 1 /\
   surf Axis2 p
   = wrap (UInt (Z.max 8 64))
       (Mask.count_pairs Mask.entering Axis2 p
        + (2 ^ 8 - 1) * Mask.count_pairs Mask.leaving Axis2 p) /\
   Mask.count_pairs Mask.entering Axis2 p
   = Mask.count_pairs Mask.leaving Axis2 p /\
   Mask.faces Axis2 p = 2 * Mask.count_pairs Mask.leaving Axis2 p /\
   surf Axis2 p = wrap (UInt (Z.max 8 64)) (2 ^ (8 - 1) * Mask.faces Axis2 p)).
Proof.
  apply (face_sum_by_element_type Axis2 (Examples.voxel (UInt 8)) 8).
  reflexivity.
Defined.

(** C10, as stated, fails: for one voxel stored as [uint8] each per-axis
    sum is 1 + 255 = 256 for 2 exposed faces, and the surface area is 768,
    which is 128 times the true 6 and not 255 times. *)
Lemma unsigned_inflation_is_not_all_ones :
  let p := Mask.padded (Examples.voxel (UInt 8)) in
  Mask.faces Axis2 p = 2 /\
  surf Axis2 p = 256 /\
  surf Axis2 p <> (2 ^ 8 - 1) * Mask.faces Axis2 p /\
  getSurfaceAreaFeatureValue
    (init Examples.unit_spacing (Examples.voxel (Int 8)))
    = Num Numpy64 (Finite 6) /\
  getSurfaceAreaFeatureValue
    (init Examples.unit_spacing (Examples.voxel (UInt 8)))
    = Num Numpy64 (Finite 768) /\
  (768 <> (2 ^ 8 - 1) * 6)%R.
Proof.
  intros p.
  assert (Hs : forall ax, surf ax p = 256) by (intros []; vm_compute; reflexivity).
  assert (Hi : forall ax, surf ax (Mask.padded (Examples.voxel (Int 8))) = 2)
    by (intros []; vm_compute; reflexivity).
  split; [vm_compute; reflexivity|]. split; [apply Hs|].
  split; [rewrite Hs; vm_compute; discriminate|].
  split; [|split].
  - rewrite (surface_area_value _ 1 1 1) by reflexivity.
    rewrite init_maskArray, !Hi. do 2 f_equal. lra.
  - rewrite (surface_area_value _ 1 1 1) by reflexivity.
    rewrite init_maskArray. fold p. rewrite !Hs. do 2 f_equal. lra.
  - lra.
Qed.

End UnsignedMasks.

(** ** The diameter search *)

Section DiameterLoop.

Local Open Scope R_scope.

Lemma greater_spec (a b : R) : greater a b = true <-> b < a.
Proof.
  unfold greater. destruct (Rlt_dec b a); split; intros; auto; discriminate.
Qed.

Lemma fold_max_spec (l : list R) (d : R) :
  let x := fold_left (fun m v => if greater v m then v else m) l d in
  (x = d \/ In x l) /\ d <= x /\ (forall y, In y l -> y <= x).
Proof.
  revert d. induction l as [|v l IH]; intros d; cbn [fold_left].
  - split; [now left|]. split; [lra|]. intros y [].
  - destruct (IH (if greater v d then v else d)) as (H1 & H2 & H3).
    set (x := fold_left _ l _) in *.
    destruct (greater v d) eqn:G.
    + apply greater_spec in G. split; [|split].
      * destruct H1 as [->|H1]; [right; now left|right; now right].
      * lra.
      * intros y [<-|Hy]; [lra|now apply H3].
    + assert (v <= d).
      { destruct (Rle_dec v d); [assumption|].
        assert (greater v d = true) by (apply greater_spec; lra). congruence. }
      split; [|split].
      * destruct H1 as [->|H1]; [now left|right; now right].
      * lra.
      * intros y [<-|Hy]; [lra|now apply H3].
Qed.

Lemma array_max_spec (l : list R) :
  l <> [] ->
  exists x, array_max l = Ok x /\ In x l /\ (forall y, In y l -> y <= x).
Proof.
  destruct l as [|d l]; [congruence|]. intros _.
  destruct (fold_max_spec l d) as (H1 & H2 & H3).
  eexists. split; [reflexivity|]. split.
  - destruct H1 as [->|H1]; [now left|now right].
  - intros y [<-|Hy]; [exact H2|now apply H3].
Qed.

(** What the loop returns: the largest of the start value and all the
    distances between a row of the first and a row of the second list. *)
Lemma diameter_loop_spec (mins maxs : list (R * R * R)) (m0 : R) :
  mins <> [] ->
  exists r, diameter_loop mins maxs m0 = Ok r /\
    m0 <= r /\
    (forall p q, In p mins -> In q maxs -> distance p q <= r) /\
    (r = m0 \/ exists p q, In p mins /\ In q maxs /\ r = distance p q).
Proof.
  intros Hne. revert m0. induction maxs as [|q maxs IH]; intros m0.
  - exists m0. cbn. split; [reflexivity|]. split; [lra|].
    split; [intros p q _ []|now left].
  - cbn [diameter_loop].
    destruct (array_max_spec (map (fun v => distance v q) mins))
      as (x & Hx & Hin & Hmax).
    { destruct mins; [congruence|discriminate]. }
    rewrite Hx. cbn [bind].
    apply in_map_iff in Hin. destruct Hin as (p0 & Hp0 & Hp0in).
    destruct (IH (if greater x m0 then x else m0)) as (r & Hr & Hge & Hall & Hor).
    exists r. split; [exact Hr|].
    assert (Hm : m0 <= (if greater x m0 then x else m0)
                 /\ x <= (if greater x m0 then x else m0)).
    { destruct (greater x m0) eqn:G.
      - apply greater_spec in G. lra.
      - destruct (Rle_dec x m0); [lra|].
        assert (greater x m0 = true) by (apply greater_spec; lra). congruence. }
    split; [lra|]. split.
    + intros p q' Hp [<-|Hq'].
      * assert (distance p q <= x).
        { apply Hmax. apply in_map_iff. now exists p. }
        lra.
      * now apply Hall.
    + destruct Hor as [Hor|(p & q' & Hp & Hq' & E)].
      * destruct (greater x m0).
        -- right. exists p0, q. repeat split; [assumption|now left|congruence].
        -- now left.
      * right. exists p, q'. repeat split; [assumption|now right|assumption].
Qed.

End DiameterLoop.

Section EdgeRows.

Lemma fold_min_in (l : list nat) (n : nat) :
  In (fold_left Nat.min l n) (n :: l).
Proof.
  revert n. induction l as [|x l IH]; intros n; cbn [fold_left].
  - now left.
  - destruct (IH (Nat.min n x)) as [E|H].
    + destruct (Nat.min_dec n x) as [M|M].
      * left. now transitivity (Nat.min n x).
      * right. left. now transitivity (Nat.min n x).
    + right. now right.
Qed.

Lemma fold_max_in (l : list nat) (n : nat) :
  In (fold_left Nat.max l n) (n :: l).
Proof.
  revert n. induction l as [|x l IH]; intros n; cbn [fold_left].
  - now left.
  - destruct (IH (Nat.max n x)) as [E|H].
    + destruct (Nat.max_dec n x) as [M|M].
      * left. now transitivity (Nat.max n x).
      * right. left. now transitivity (Nat.max n x).
    + right. now right.
Qed.

Lemma np_min_in (l : list nat) :
  l <> [] -> exists n, np_min l = Ok n /\ In n l.
Proof.
  destruct l as [|x l]; [congruence|]. intros _.
  eexists. split; [reflexivity|]. apply fold_min_in.
Qed.

Lemma np_max_in (l : list nat) :
  l <> [] -> exists n, np_max l = Ok n /\ In n l.
Proof.
  destruct l as [|x l]; [congruence|]. intros _.
  eexists. split; [reflexivity|]. apply fold_max_in.
Qed.

(** The three index arrays of [numpy.where], zipped, are the rows again. *)
Lemma zip3_columns (l : list index) :
  zip3 (map (fun '(k, _, _) => k) l)
       (map (fun '(_, j, _) => j) l)
       (map (fun '(_, _, i) => i) l) = l.
Proof.
  induction l as [|[[k j] i] l IH]; [reflexivity|].
  cbn [map zip3]. now rewrite IH.
Qed.

Lemma rows_where_nonempty (n b : nat) (f : index -> nat) (a : list index) :
  (forall v, f v = column n v) ->
  In b (map f a) -> rows_where n b a <> [].
Proof.
  intros Hf Hin. apply in_map_iff in Hin. destruct Hin as (v & Hv & Hva).
  assert (H : In v (rows_where n b a)).
  { unfold rows_where. apply filter_In. split; [assumption|].
    apply Nat.eqb_eq. now rewrite <- Hf. }
  intros E. rewrite E in H. contradiction.
Qed.

(** For a region with at least one voxel the bounds exist and there are
    rows on them. *)
Lemma edge_rows_defined (l : list index) :
  l <> [] ->
  exists mins maxs,
    edge_rows (map (fun '(k, _, _) => k) l,
               map (fun '(_, j, _) => j) l,
               map (fun '(_, _, i) => i) l) = Ok (mins, maxs)
    /\ mins <> [] /\ maxs <> []
    /\ (forall v, In v mins -> In v l) /\ (forall v, In v maxs -> In v l).
Proof.
  intros Hl. unfold edge_rows. rewrite zip3_columns.
  set (f0 := fun '(k, _, _) => k : nat). set (f1 := fun '(_, j, _) => j : nat).
  set (f2 := fun '(_, _, i) => i : nat).
  assert (N : forall f : index -> nat, map f l <> []).
  { intros f. destruct l; [congruence|discriminate]. }
  destruct (np_min_in (map f0 l) (N _)) as (min0 & -> & Hmin0).
  destruct (np_min_in (map f1 l) (N _)) as (min1 & -> & Hmin1).
  destruct (np_min_in (map f2 l) (N _)) as (min2 & -> & Hmin2).
  destruct (np_max_in (map f0 l) (N _)) as (max0 & -> & Hmax0).
  destruct (np_max_in (map f1 l) (N _)) as (max1 & -> & Hmax1).
  destruct (np_max_in (map f2 l) (N _)) as (max2 & -> & Hmax2).
  cbn [bind]. eexists. eexists. split; [reflexivity|].
  assert (C0 : forall v, f0 v = column 0 v) by (intros [[? ?] ?]; reflexivity).
  split; [|split; [|split]].
  - intros E. apply app_eq_nil in E. destruct E as [E _].
    exact (rows_where_nonempty 0 min0 f0 l C0 Hmin0 E).
  - intros E. apply app_eq_nil in E. destruct E as [E _].
    exact (rows_where_nonempty 0 max0 f0 l C0 Hmax0 E).
  - intros v Hv. unfold rows_where in Hv.
    rewrite !in_app_iff, !filter_In in Hv. tauto.
  - intros v Hv. unfold rows_where in Hv.
    rewrite !in_app_iff, !filter_In in Hv. tauto.
Qed.

Lemma nonzero_indices_nonempty (m : ndarray) :
  (0 < Mask.voxels m)%Z -> nonzero_indices m <> [].
Proof.
  unfold Mask.voxels. intros H E. rewrite E in H. cbn in H. lia.
Qed.

End EdgeRows.

Section DiameterFloor.

Local Open Scope R_scope.

Lemma init_edge_rows (sp : R * R * R) (m : ndarray) :
  (0 < Mask.voxels m)%Z ->
  exists mins maxs,
    edge_rows (matrixCoordinates (init sp m)) = Ok (mins, maxs)
    /\ mins <> [] /\ maxs <> []
    /\ (forall v, In v mins -> In v (nonzero_indices (Mask.padded m)))
    /\ (forall v, In v maxs -> In v (nonzero_indices (Mask.padded m))).
Proof.
  intros Hv. rewrite init_matrixCoordinates. unfold where_.
  apply edge_rows_defined. apply nonzero_indices_nonempty.
  now rewrite voxels_padded.
Qed.

(** The search never returns less than its start value 1, and returns 1
    when no candidate pair is further apart. *)
Lemma diameter_start_value (self : RadiomicsShape) (mins maxs : list index) :
  edge_rows (matrixCoordinates self) = Ok (mins, maxs) ->
  mins <> [] ->
  (forall p q, In p mins -> In q maxs ->
               distance (scale (pixelSpacing self) p)
                        (scale (pixelSpacing self) q) < 1) ->
  getMaximum3DDiameterFeatureValue self = Ok 1.
Proof.
  intros He Hne Hd. unfold getMaximum3DDiameterFeatureValue.
  rewrite He. cbn [bind fst snd].
  destruct (diameter_loop_spec
              (map (scale (pixelSpacing self)) mins)
              (map (scale (pixelSpacing self)) maxs) 1)
    as (r & Hr & Hge & _ & Hor).
  { destruct mins; [congruence|discriminate]. }
  rewrite Hr. f_equal.
  destruct Hor as [E|(p & q & Hp & Hq & E)]; [exact E|].
  apply in_map_iff in Hp, Hq.
  destruct Hp as (p' & <- & Hp'), Hq as (q' & <- & Hq').
  specialize (Hd p' q' Hp' Hq'). lra.
Qed.

(** C6. The running maximum of [getMaximum3DDiameterFeatureValue] starts
    at 1: for a region with at least one voxel the candidate rows exist, and
    when every distance between a row on a minimum bound and a row on a
    maximum bound is below 1, the function returns 1. *)
Theorem diameter_floor_of_one (sp : R * R * R) (m : ndarray) :
  (0 < Mask.voxels m)%Z ->
  exists mins maxs,
    edge_rows (matrixCoordinates (init sp m)) = Ok (mins, maxs) /\
    ((forall p q, In p mins -> In q maxs ->
                  distance (scale sp p) (scale sp q) < 1) ->
     getMaximum3DDiameterFeatureValue (init sp m) = Ok 1).
Proof.
  intros Hv.
  destruct (init_edge_rows sp m Hv) as (mins & maxs & He & Hne & _).
  exists mins, maxs. split; [exact He|]. intros Hd.
  apply (diameter_start_value _ mins maxs); try assumption.
  now rewrite init_pixelSpacing.
Qed.

Lemma diameter_floor_of_one_witness :
  exists mins maxs,
    edge_rows (matrixCoordinates (init SmallRegion.spacing SmallRegion.mask))
    = Ok (mins, maxs) /\
    ((forall p q, In p mins -> In q maxs ->
                  distance (scale SmallRegion.spacing p)
                           (scale SmallRegion.spacing q) < 1) ->
     getMaximum3DDiameterFeatureValue
       (init SmallRegion.spacing SmallRegion.mask) = Ok 1).
Proof.
  apply (diameter_floor_of_one SmallRegion.spacing SmallRegion.mask).
  reflexivity.
Defined.

Lemma distance_below_one (p q : R * R * R) :
  (let '(p0, p1, p2) := p in
   let '(q0, q1, q2) := q in
   (p0 - q0) ^ 2 + (p1 - q1) ^ 2 + (p2 - q2) ^ 2 < 1) ->
  distance p q < 1.
Proof.
  destruct p as [[p0 p1] p2], q as [[q0 q1] q2]. intros H. unfold distance.
  rewrite <- sqrt_1. apply sqrt_lt_1_alt. split; [|exact H].
  pose proof (pow2_ge_0 (p0 - q0)). pose proof (pow2_ge_0 (p1 - q1)).
  pose proof (pow2_ge_0 (p2 - q2)). lra.
Qed.

(** Two voxels a quarter of a millimetre apart: the largest distance in
    the region is 1/4, and the function returns 1. *)
Lemma small_region_reports_one :
  distance (scale SmallRegion.spacing (1, 1, 1)%nat)
           (scale SmallRegion.spacing (1, 1, 2)%nat) = / 4 /\
  getMaximum3DDiameterFeatureValue
    (init SmallRegion.spacing SmallRegion.mask) = Ok 1.
Proof.
  split.
  - unfold distance, scale, SmallRegion.spacing. simpl INR.
    replace ((1 * / 4 - 1 * / 4) ^ 2 + (1 * / 4 - 1 * / 4) ^ 2
             + (1 * / 4 - (1 + 1) * / 4) ^ 2) with (/ 4 * / 4) by field.
    apply sqrt_square. lra.
  - apply (diameter_start_value _
             [(1, 1, 1); (1, 1, 2); (1, 1, 1); (1, 1, 2); (1, 1, 1)]%nat
             [(1, 1, 1); (1, 1, 2); (1, 1, 1); (1, 1, 2); (1, 1, 2)]%nat).
    + rewrite init_matrixCoordinates. vm_compute. reflexivity.
    + discriminate.
    + rewrite init_pixelSpacing. intros p q Hp Hq.
      apply distance_below_one. cbn [In] in Hp, Hq.
      destruct Hp as [<-|[<-|[<-|[<-|[<-|[]]]]]];
        destruct Hq as [<-|[<-|[<-|[<-|[<-|[]]]]]];
        unfold scale, SmallRegion.spacing; simpl INR; lra.
Qed.

End DiameterFloor.

Section CubeDiameter.

Local Open Scope R_scope.

Lemma sqrt_12_bounds : 3.4640 < sqrt 12 < 3.4642.
Proof.
  split.
  - rewrite <- (sqrt_square 3.4640) by lra. apply sqrt_lt_1_alt. lra.
  - rewrite <- (sqrt_square 3.4642) by lra. apply sqrt_lt_1_alt. lra.
Qed.

(** Rows whose indices all lie in 1..3, at unit spacing, are at most
    [sqrt 12] apart. *)
Lemma cube_rows_distance (p q : index) :
  In p (indices (4, 4, 4)%nat) -> In q (indices (4, 4, 4)%nat) ->
  (let '(k, j, i) := p in (1 <= k /\ 1 <= j /\ 1 <= i)%nat) ->
  (let '(k, j, i) := q in (1 <= k /\ 1 <= j /\ 1 <= i)%nat) ->
  distance (scale Examples.unit_spacing p) (scale Examples.unit_spacing q)
  <= sqrt 12.
Proof.
  destruct p as [[k j] i], q as [[k' j'] i']. intros Hp Hq Lp Lq.
  apply in_indices in Hp, Hq. cbn in Hp, Hq.
  unfold distance, scale, Examples.unit_spacing.
  apply sqrt_le_1_alt.
  assert (B : forall a b : nat,
             (1 <= a < 4)%nat -> (1 <= b < 4)%nat ->
             (INR a * 1 - INR b * 1) ^ 2 <= 4).
  { intros a b Ha Hb.
    assert (I1 : INR 1 = 1) by reflexivity.
    assert (I3 : INR 3 = 3) by (simpl; lra).
    assert (1 <= INR a <= 3)
      by (rewrite <- I1, <- I3; split; apply le_INR; lia).
    assert (1 <= INR b <= 3)
      by (rewrite <- I1, <- I3; split; apply le_INR; lia).
    nra. }
  pose proof (B k k'). pose proof (B j j'). pose proof (B i i').
  assert ((INR k * 1 - INR k' * 1) ^ 2 <= 4) by (apply B; lia).
  assert ((INR j * 1 - INR j' * 1) ^ 2 <= 4) by (apply B; lia).
  assert ((INR i * 1 - INR i' * 1) ^ 2 <= 4) by (apply B; lia).
  lra.
Qed.

Lemma cube3_rows_in_range (t : dtype) (v : index) :
  In v (nonzero_indices (Mask.padded (Examples.cube3 t))) ->
  In v (indices (4, 4, 4)%nat) /\
  (let '(k, j, i) := v in (1 <= k /\ 1 <= j /\ 1 <= i)%nat).
Proof.
  intros H.
  assert (F : forallb (fun v : index =>
                let '(k, j, i) := v in
                in_boundsb (4, 4, 4)%nat v
                && (1 <=? k)%nat && (1 <=? j)%nat && (1 <=? i)%nat)
              (nonzero_indices (Mask.padded (Examples.cube3 t))) = true)
    by (vm_compute; reflexivity).
  rewrite forallb_forall in F. specialize (F v H).
  destruct v as [[k j] i].
  rewrite !andb_true_iff, !Nat.leb_le in F.
  destruct F as [[[F1 F2] F3] F4]. split; [|lia].
  apply in_indices. now apply in_boundsb_spec.
Qed.

(** C5. For the 3x3x3 all-true mask with spacing (1,1,1),
    [getMaximum3DDiameterFeatureValue] returns
    [sqrt (2^2 + 2^2 + 2^2) = sqrt 12], which is 3.4641 to four decimals:
    the distance between opposite corner voxels, whose indices differ by 2
    along each axis. *)
Theorem cube3_diameter (t : dtype) :
  getMaximum3DDiameterFeatureValue
    (init Examples.unit_spacing (Examples.cube3 t))
  = Ok (sqrt (2 ^ 2 + 2 ^ 2 + 2 ^ 2)) /\
  sqrt (2 ^ 2 + 2 ^ 2 + 2 ^ 2) = sqrt 12 /\
  distance (scale Examples.unit_spacing (1, 1, 1)%nat)
           (scale Examples.unit_spacing (3, 3, 3)%nat) = sqrt 12 /\
  Rabs (sqrt 12 - 3.4641) < 0.0001.
Proof.
  assert (E12 : 2 ^ 2 + 2 ^ 2 + 2 ^ 2 = 12) by lra.
  assert (Hc : distance (scale Examples.unit_spacing (1, 1, 1)%nat)
                        (scale Examples.unit_spacing (3, 3, 3)%nat) = sqrt 12).
  { unfold distance, scale, Examples.unit_spacing. simpl INR. f_equal. lra. }
  split; [|split; [now rewrite E12|split; [exact Hc|]]].
  - rewrite E12. set (self := init Examples.unit_spacing (Examples.cube3 t)).
    assert (Hv : (0 < Mask.voxels (Examples.cube3 t))%Z) by reflexivity.
    destruct (init_edge_rows Examples.unit_spacing (Examples.cube3 t) Hv)
      as (mins & maxs & He & Hne & _ & Hmins & Hmaxs).
    fold self in He.
    assert (Hlo : In (1, 1, 1)%nat mins /\ In (3, 3, 3)%nat maxs).
    { unfold self in He. rewrite init_matrixCoordinates in He.
      vm_compute in He. injection He as <- <-. split.
      - now left.
      - right. right. right. right. right. right. right. right. now left. }
    unfold getMaximum3DDiameterFeatureValue. rewrite He. cbn [bind fst snd].
    unfold self. rewrite init_pixelSpacing.
    destruct (diameter_loop_spec
                (map (scale Examples.unit_spacing) mins)
                (map (scale Examples.unit_spacing) maxs) 1)
      as (r & Hr & Hge & Hall & Hor).
    { destruct mins; [congruence|discriminate]. }
    rewrite Hr. f_equal. pose proof sqrt_12_bounds as Hb.
    apply Rle_antisym.
    + destruct Hor as [->|(p & q & Hp & Hq & ->)]; [lra|].
      apply in_map_iff in Hp, Hq.
      destruct Hp as (p' & <- & Hp'), Hq as (q' & <- & Hq').
      destruct (cube3_rows_in_range t p' (Hmins p' Hp')).
      destruct (cube3_rows_in_range t q' (Hmaxs q' Hq')).
      now apply cube_rows_distance.
    + rewrite <- Hc. apply Hall; apply in_map; tauto.
  - pose proof sqrt_12_bounds. apply Rabs_def1; lra.
Qed.

End CubeDiameter.

(** ** Faces and shadows *)

Section Shadows.

Import Lines.

Local Open Scope Z_scope.

Lemma max_n_ge (n : nat) (f : nat -> Z) (t : nat) :
  (t < n)%nat -> f t <= max_n n f.
Proof.
  induction n as [|n IH]; intros Ht; [lia|]. cbn [max_n].
  destruct (Nat.eq_dec t n) as [->|N]; [lia|].
  assert (f t <= max_n n f) by (apply IH; lia). lia.
Qed.

Lemma max_n_cases (n : nat) (f : nat -> Z) :
  max_n n f = 0 \/ exists t, (t < n)%nat /\ max_n n f = f t.
Proof.
  induction n as [|n IH]; [now left|]. cbn [max_n].
  destruct (Z.max_spec (max_n n f) (f n)) as [[_ E]|[_ E]]; rewrite E.
  - right. exists n. split; [lia|reflexivity].
  - destruct IH as [IH|(t & Ht & IH)]; [now left|].
    right. exists t. split; [lia|exact IH].
Qed.

Lemma max_n_nonneg (n : nat) (f : nat -> Z) : 0 <= max_n n f.
Proof. induction n as [|n IH]; cbn [max_n]; lia. Qed.

Lemma max_n_binary (n : nat) (f : nat -> Z) :
  (forall t, (t < n)%nat -> f t = 0 \/ f t = 1) ->
  max_n n f = 0 \/ max_n n f = 1.
Proof.
  intros Hb. destruct (max_n_cases n f) as [E|(t & Ht & E)]; [now left|].
  rewrite E. now apply Hb.
Qed.

(** A line that starts and ends outside the region and meets it at [t0]
    has at least two exposed faces. *)
Lemma line_two_faces (n : nat) (f : nat -> Z) (t0 : nat) :
  f O = 0 -> f n = 0 -> (t0 <= n)%nat -> 0 <= f t0 ->
  2 * f t0 <= sum_n n (fun t => Z.abs (f (S t) - f t)).
Proof.
  intros H0 Hn Ht Hf.
  replace n with (t0 + (n - t0))%nat at 1 by lia.
  rewrite sum_n_split.
  pose proof (sum_n_abs_telescope t0 f) as H1.
  pose proof (sum_n_abs_telescope (n - t0) (fun t => f (t0 + t)%nat)) as H2.
  cbn beta in H2.
  replace (t0 + (n - t0))%nat with n in H2 by lia.
  rewrite Nat.add_0_r in H2. rewrite H0 in H1. rewrite Hn in H2.
  assert (E : sum_n (n - t0) (fun t => Z.abs (f (S (t0 + t)) - f (t0 + t)%nat))
              = sum_n (n - t0)
                  (fun t => Z.abs (f (t0 + S t)%nat - f (t0 + t)%nat))).
  { apply sum_n_ext. intros t _. now rewrite Nat.add_succ_r. }
  rewrite E. lia.
Qed.

Lemma differ_abs (a b : Z) :
  (a = 0 \/ a = 1) -> (b = 0 \/ b = 1) ->
  indicator (Mask.differ a b) = Z.abs (b - a).
Proof. intros [-> | ->] [-> | ->]; reflexivity. Qed.

(** On the padded mask every line that meets the region contributes at
    least two faces: the faces across an axis are at least twice the
    shadow of the region on the plane across it. *)
Lemma faces_twice_shadow (ax : axis) (m : ndarray) :
  Mask.binary m ->
  2 * shadow_area ax (Mask.padded m) <= Mask.faces ax (Mask.padded m).
Proof.
  intros Hb. unfold Mask.faces. rewrite count_pairs_lines.
  unfold shadow_area.
  destruct (across ax (shape (Mask.padded m))) as [du dv] eqn:Ea.
  cbn [fst snd]. rewrite <- sum_n_scal_l.
  apply sum_n_le. intros u _. rewrite <- sum_n_scal_l.
  apply sum_n_le. intros v _.
  set (f := line ax (Mask.padded m) u v).
  set (n := Nat.pred (along ax (shape (Mask.padded m)))).
  assert (Hlen : along ax (shape (Mask.padded m)) = S n).
  { unfold n. destruct (shape m) as [[d h] w] eqn:E.
    rewrite (shape_padded m d h w E). destruct ax; reflexivity. }
  assert (Hbin : forall t, f t = 0 \/ f t = 1)
    by (intros t; now apply padded_item_binary).
  assert (E : sum_n n (fun t => indicator (Mask.differ (f t) (f (S t))))
              = sum_n n (fun t => Z.abs (f (S t) - f t))).
  { apply sum_n_ext. intros t _. now apply differ_abs. }
  rewrite E. unfold shadow. fold f. rewrite Hlen.
  destruct (max_n_cases (S n) f) as [Z0|(t0 & Ht0 & Et)].
  - rewrite Z0. apply sum_n_nonneg. intros; lia.
  - rewrite Et. apply line_two_faces.
    + apply padded_line_first.
    + apply padded_line_last.
    + lia.
    + destruct (Hbin t0); lia.
Qed.

End Shadows.

(** ** The region and its three shadows *)

Section LoomisWhitney.

Import Lines.

Local Open Scope Z_scope.

Lemma mean_bound (y p q : Z) :
  0 <= y -> 0 <= p -> 0 <= q -> y * y <= p * q -> 2 * y <= p + q.
Proof.
  intros Hy Hp Hq H.
  destruct (Z_lt_le_dec (p + q) (2 * y)) as [L|L]; [exfalso|exact L].
  assert (S1 : (p + q) * (p + q) < (2 * y) * (2 * y))
    by (apply Z.mul_lt_mono_nonneg; lia).
  assert (S2 : 0 <= (p - q) * (p - q)) by apply Z.square_nonneg.
  lia.
Qed.

Lemma square_sum_step (X A B x a b c : Z) :
  0 <= X -> 0 <= A -> 0 <= B -> 0 <= x -> 0 <= a -> 0 <= b -> 0 <= c ->
  X * X <= c * A * B -> x * x <= c * a * b ->
  (X + x) * (X + x) <= c * (A + a) * (B + b).
Proof.
  intros HX HA HB Hx Ha Hb Hc H1 H2.
  assert (Hm : (X * x) * (X * x) <= (c * A * b) * (c * a * B)).
  { replace ((X * x) * (X * x)) with ((X * X) * (x * x)) by ring.
    replace ((c * A * b) * (c * a * B)) with ((c * A * B) * (c * a * b)) by ring.
    apply Z.mul_le_mono_nonneg; try assumption; apply Z.square_nonneg. }
  assert (Hy : 2 * (X * x) <= c * A * b + c * a * B).
  { apply mean_bound; try assumption.
    - now apply Z.mul_nonneg_nonneg.
    - repeat apply Z.mul_nonneg_nonneg; assumption.
    - repeat apply Z.mul_nonneg_nonneg; assumption. }
  replace ((X + x) * (X + x)) with (X * X + 2 * (X * x) + x * x) by ring.
  replace (c * (A + a) * (B + b))
    with (c * A * B + (c * A * b + c * a * B) + c * a * b) by ring.
  lia.
Qed.

(** If each [x k] squared is at most [c * a k * b k], the sum of the
    [x k], squared, is at most [c] times the two sums. *)
Lemma square_sum_bound (n : nat) (x a b : nat -> Z) (c : Z) :
  0 <= c ->
  (forall k, (k < n)%nat ->
             0 <= x k /\ 0 <= a k /\ 0 <= b k /\ x k * x k <= c * a k * b k) ->
  sum_n n x * sum_n n x <= c * sum_n n a * sum_n n b.
Proof.
  intros Hc. induction n as [|n IH]; intros H; cbn [sum_n]; [lia|].
  destruct (H n (Nat.lt_succ_diag_r n)) as (Hx & Ha & Hb & Hs).
  assert (IH' : sum_n n x * sum_n n x <= c * sum_n n a * sum_n n b)
    by (apply IH; intros; apply H; lia).
  apply square_sum_step; try assumption;
    apply sum_n_nonneg; intros i Hi; apply H; lia.
Qed.

End LoomisWhitney.

Section ThreeShadows.

Import Lines.

Local Open Scope Z_scope.

Lemma nonzero_indicator_binary (v : Z) :
  v = 0 \/ v = 1 -> indicator (negb (v =? 0)) = v.
Proof. intros [-> | ->]; reflexivity. Qed.

(** The number of voxels of a region, squared, is at most the product of
    the areas of its three shadows. *)
Lemma voxels_squared_le_shadows (a : ndarray) :
  Mask.binary a ->
  Mask.voxels a * Mask.voxels a
  <= shadow_area Axis0 a * shadow_area Axis1 a * shadow_area Axis2 a.
Proof.
  intros Hb. destruct (shape a) as [[d h] w] eqn:E.
  assert (B : forall k j i, (k < d)%nat -> (j < h)%nat -> (i < w)%nat ->
                item a (k, j, i) = 0 \/ item a (k, j, i) = 1).
  { intros k j i Hk Hj Hi. apply binary_item; [assumption|].
    rewrite E. cbn. lia. }
  rewrite (voxels_lines Axis2). unfold shadow_area, shadow, line.
  rewrite E. cbn [across along fst snd place].
  set (s0 := fun j i => max_n d (fun t => item a (t, j, i))).
  set (s1 := fun k i => max_n h (fun t => item a (k, t, i))).
  set (s2 := fun k j => max_n w (fun t => item a (k, j, t))).
  set (c := sum_n h (fun u => sum_n w (fun v => s0 u v))).
  set (x := fun k => sum_n h (fun j => sum_n w (fun i => item a (k, j, i)))).
  assert (Ex : sum_n d (fun u => sum_n h (fun v => sum_n w (fun t =>
                 indicator (negb (item a (u, v, t) =? 0)))))
               = sum_n d x).
  { apply sum_n_ext. intros k Hk. apply sum_n_ext. intros j Hj.
    apply sum_n_ext. intros i Hi. apply nonzero_indicator_binary. now apply B. }
  rewrite Ex.
  change (sum_n d (fun u => sum_n w (fun v => max_n h (fun t => item a (u, t, v)))))
    with (sum_n d (fun k => sum_n w (fun i => s1 k i))).
  change (sum_n d (fun u => sum_n h (fun v => max_n w (fun t => item a (u, v, t)))))
    with (sum_n d (fun k => sum_n h (fun j => s2 k j))).
  assert (N0 : forall j i, 0 <= s0 j i) by (intros; apply max_n_nonneg).
  assert (N1 : forall k i, 0 <= s1 k i) by (intros; apply max_n_nonneg).
  assert (N2 : forall k j, 0 <= s2 k j) by (intros; apply max_n_nonneg).
  assert (Hc : 0 <= c).
  { apply sum_n_nonneg. intros j _. apply sum_n_nonneg. intros i _. apply N0. }
  replace (c * sum_n d (fun k => sum_n w (fun i => s1 k i))
           * sum_n d (fun k => sum_n h (fun j => s2 k j)))
    with (c * sum_n d (fun k => sum_n h (fun j => s2 k j))
          * sum_n d (fun k => sum_n w (fun i => s1 k i))) by ring.
  apply square_sum_bound; [exact Hc|].
  intros k Hk.
  assert (Hx0 : 0 <= x k).
  { apply sum_n_nonneg. intros j Hj. apply sum_n_nonneg. intros i Hi.
    destruct (B k j i Hk Hj Hi); lia. }
  assert (Ha0 : 0 <= sum_n h (fun j => s2 k j))
    by (apply sum_n_nonneg; intros; apply N2).
  assert (Hb0 : 0 <= sum_n w (fun i => s1 k i))
    by (apply sum_n_nonneg; intros; apply N1).
  assert (Hxc : x k <= c).
  { apply sum_n_le. intros j Hj. apply sum_n_le. intros i Hi.
    apply (max_n_ge d (fun t => item a (t, j, i)) k Hk). }
  assert (Hxab : x k <= sum_n h (fun j => s2 k j) * sum_n w (fun i => s1 k i)).
  { rewrite <- sum_n_scal_r. apply sum_n_le. intros j Hj.
    rewrite <- sum_n_scal_l. apply sum_n_le. intros i Hi.
    pose proof (max_n_ge w (fun t => item a (k, j, t)) i Hi) as G2.
    pose proof (max_n_ge h (fun t => item a (k, t, i)) j Hj) as G1.
    cbn beta in G1, G2. fold (s2 k j) in G2. fold (s1 k i) in G1.
    destruct (B k j i Hk Hj Hi) as [Z0|Z1].
    - rewrite Z0. apply Z.mul_nonneg_nonneg; [apply N2|apply N1].
    - rewrite Z1 in *.
      replace 1 with (1 * 1) by reflexivity.
      apply Z.mul_le_mono_nonneg; lia. }
  repeat split; try assumption.
  set (ak := sum_n h (fun j => s2 k j)) in *.
  set (bk := sum_n w (fun i => s1 k i)) in *.
  change (x k * x k <= c * bk * ak).
  apply Z.le_trans with ((ak * bk) * c).
  - apply Z.mul_le_mono_nonneg; assumption.
  - apply Z.eq_le_incl. ring.
Qed.

End ThreeShadows.

(** ** Compactness *)

Section Compactness.

Import Lines.

Local Open Scope R_scope.

(** The inequality of the arithmetic and the geometric mean, for three
    numbers. *)
Lemma three_means (u v t : R) :
  0 <= u -> 0 <= v -> 0 <= t -> 27 * (u * v * t) <= (u + v + t) ^ 3.
Proof.
  intros Hu Hv Ht.
  assert (H1 : 0 <= u * (v - t) ^ 2)
    by (apply Rmult_le_pos; [assumption|apply pow2_ge_0]).
  assert (H2 : 0 <= v * (u - t) ^ 2)
    by (apply Rmult_le_pos; [assumption|apply pow2_ge_0]).
  assert (H3 : 0 <= t * (u - v) ^ 2)
    by (apply Rmult_le_pos; [assumption|apply pow2_ge_0]).
  assert (H4 : 0 <= (u + v + t) * ((u - v) ^ 2 + (v - t) ^ 2 + (t - u) ^ 2)).
  { apply Rmult_le_pos; [lra|].
    pose proof (pow2_ge_0 (u - v)). pose proof (pow2_ge_0 (v - t)).
    pose proof (pow2_ge_0 (t - u)). lra. }
  nra.
Qed.

Lemma cube_monotone (a b : R) : 0 <= a <= b -> a * a * a <= b * b * b.
Proof.
  intros H. pose proof (pow_incr a b 3 H) as P. simpl in P. lra.
Qed.

(** From the counting facts to the surface and the volume: with [n]
    voxels, faces [F0], [F1], [F2] across the three axes, and shadows
    [S0], [S1], [S2], the surface area cubed is at least 216 times the
    volume squared. *)
Lemma surface_cubed_bound (n F0 F1 F2 S0 S1 S2 : Z) (sx sy sz : R) :
  0 < sx -> 0 < sy -> 0 < sz ->
  (1 <= n)%Z -> (n * n <= S0 * S1 * S2)%Z ->
  (0 <= S0)%Z -> (0 <= S1)%Z -> (0 <= S2)%Z ->
  (2 * S0 <= F0)%Z -> (2 * S1 <= F1)%Z -> (2 * S2 <= F2)%Z ->
  let V := IZR n * (sx * sy * sz) in
  let A := IZR F2 * (sy * sz) + IZR F1 * (sx * sz) + IZR F0 * (sx * sy) in
  0 < V /\ 0 < A /\ 216 * (V * V) <= A * A * A.
Proof.
  intros Hx Hy Hz Hn Hlw P0 P1 P2 G0 G1 G2 V A.
  assert (Hyz : 0 < sy * sz) by now apply Rmult_lt_0_compat.
  assert (Hxz : 0 < sx * sz) by now apply Rmult_lt_0_compat.
  assert (Hxy : 0 < sx * sy) by now apply Rmult_lt_0_compat.
  assert (Hxyz : 0 < sx * sy * sz) by now apply Rmult_lt_0_compat.
  apply IZR_le in Hn, Hlw, P0, P1, P2, G0, G1, G2.
  rewrite !mult_IZR in *.
  set (u := IZR S2 * (sy * sz)). set (v := IZR S1 * (sx * sz)).
  set (t := IZR S0 * (sx * sy)).
  assert (Hu : 0 <= u) by (apply Rmult_le_pos; lra).
  assert (Hv : 0 <= v) by (apply Rmult_le_pos; lra).
  assert (Ht : 0 <= t) by (apply Rmult_le_pos; lra).
  assert (HV : 0 < V) by (apply Rmult_lt_0_compat; lra).
  assert (HA : 2 * (u + v + t) <= A).
  { unfold A, u, v, t.
    assert (2 * IZR S2 * (sy * sz) <= IZR F2 * (sy * sz))
      by (apply Rmult_le_compat_r; lra).
    assert (2 * IZR S1 * (sx * sz) <= IZR F1 * (sx * sz))
      by (apply Rmult_le_compat_r; lra).
    assert (2 * IZR S0 * (sx * sy) <= IZR F0 * (sx * sy))
      by (apply Rmult_le_compat_r; lra).
    lra. }
  assert (HVV : V * V <= u * v * t).
  { replace (V * V) with (IZR n * IZR n * ((sx * sy * sz) * (sx * sy * sz)))
      by (unfold V; ring).
    replace (u * v * t)
      with (IZR S0 * IZR S1 * IZR S2 * ((sx * sy * sz) * (sx * sy * sz)))
      by (unfold u, v, t; ring).
    apply Rmult_le_compat_r; [|exact Hlw].
    apply Rlt_le. now apply Rmult_lt_0_compat. }
  assert (H3 : 216 * (V * V) <= A * A * A).
  { pose proof (three_means u v t Hu Hv Ht) as M.
    pose proof (cube_monotone (2 * (u + v + t)) A) as C.
    assert (C' : 2 * (u + v + t) * (2 * (u + v + t)) * (2 * (u + v + t))
                 <= A * A * A) by (apply C; lra).
    simpl in M.
    replace (2 * (u + v + t) * (2 * (u + v + t)) * (2 * (u + v + t)))
      with (8 * ((u + v + t) * ((u + v + t) * ((u + v + t) * 1))))
      in C' by ring.
    lra. }
  split; [exact HV|]. split; [|exact H3].
  assert (HA0 : 0 <= A) by lra.
  destruct HA0 as [L|E]; [exact L|].
  assert (0 < V * V) by now apply Rmult_lt_0_compat.
  rewrite <- E in H3. lra.
Qed.

End Compactness.

Section CompactnessRange.

Import Lines.

Local Open Scope R_scope.

Lemma shadow_area_nonneg (ax : axis) (a : ndarray) :
  (0 <= shadow_area ax a)%Z.
Proof.
  unfold shadow_area. destruct (across ax (shape a)) as [du dv].
  apply sum_n_nonneg. intros u _. apply sum_n_nonneg. intros v _.
  apply max_n_nonneg.
Qed.

(** The surface area and the volume of a non-empty region. *)
Lemma region_surface_volume (sx sy sz : R) (m : ndarray) :
  0 < sx -> 0 < sy -> 0 < sz ->
  Mask.binary m -> (0 < Mask.voxels m)%Z ->
  Mask.sums_fit (Mask.padded m) ->
  exists V A,
    Volume (init (sx, sy, sz) m) = Num Python (Finite V) /\
    SurfaceArea (init (sx, sy, sz) m) = Num Numpy64 (Finite A) /\
    0 < V /\ 0 < A /\ 216 * (V * V) <= A * A * A.
Proof.
  intros Hx Hy Hz Hb Hv Hs.
  set (p := Mask.padded m) in *.
  assert (Hbp : Mask.binary p) by now apply binary_padded.
  assert (Hn : (1 <= Mask.voxels p)%Z)
    by (unfold p; rewrite voxels_padded; lia).
  assert (HF : forall ax, (2 * shadow_area ax p <= surf ax p)%Z).
  { intros ax. pose proof (faces_twice_shadow ax m Hb) as H1.
    pose proof (surf_at_least_faces ax m Hb Hs) as H2.
    fold p in H1, H2. lia. }
  exists (IZR (Mask.voxels p) * (sx * sy * sz)).
  exists (IZR (surf Axis2 p) * (sy * sz)
          + IZR (surf Axis1 p) * (sx * sz)
          + IZR (surf Axis0 p) * (sx * sy)).
  split; [apply init_Volume|]. split.
  - rewrite init_SurfaceArea, (surface_area_value _ sx sy sz) by reflexivity.
    now rewrite init_maskArray.
  - apply surface_cubed_bound
      with (S0 := shadow_area Axis0 p) (S1 := shadow_area Axis1 p)
           (S2 := shadow_area Axis2 p); try assumption;
      try apply shadow_area_nonneg; try apply HF.
    now apply voxels_squared_le_shadows.
Qed.

(** In exact arithmetic (no rounding, no overflow): for a non-empty binary
    mask with positive spacing, whose face sums fit the accumulator,
    [getCompactness2FeatureValue] returns [36 pi V^2 / A^3], with [V] and
    [A] the values of [getVolumeFeatureValue] and
    [getSurfaceAreaFeatureValue]; the value lies in (0, 1] and no mask
    reaches 1: it is at most [pi / 6]. *)
Theorem compactness2_in_unit_interval (sx sy sz : R) (m : ndarray) :
  0 < sx -> 0 < sy -> 0 < sz ->
  Mask.binary m -> (0 < Mask.voxels m)%Z ->
  Mask.sums_fit (Mask.padded m) ->
  let self := init (sx, sy, sz) m in
  exists V A c,
    getVolumeFeatureValue self = Num Python (Finite V) /\
    getSurfaceAreaFeatureValue self = Num Numpy64 (Finite A) /\
    Outcome.returns (getCompactness2FeatureValue self) c /\
    c = 36 * PI * V ^ 2 / A ^ 3 /\
    0 < c <= 1 /\ c <> 1 /\ c <= PI / 6.
Proof.
  intros Hx Hy Hz Hb Hv Hs self.
  destruct (region_surface_volume sx sy sz m Hx Hy Hz Hb Hv Hs)
    as (V & A & HV & HA & Vpos & Apos & H216).
  fold self in HV, HA.
  exists V, A, (36 * PI * (V * V) / (A * A * A)).
  assert (A3 : 0 < A * A * A) by (repeat apply Rmult_lt_0_compat; assumption).
  assert (V2 : 0 < V * V) by now apply Rmult_lt_0_compat.
  pose proof PI_RGT_0 as Hpi. pose proof PI_4 as Hpi4.
  assert (Hc : 36 * PI * (V * V) / (A * A * A) <= PI / 6).
  { apply Rmult_le_reg_r with (A * A * A); [exact A3|].
    replace (36 * PI * (V * V) / (A * A * A) * (A * A * A))
      with (36 * PI * (V * V)) by (field; lra).
    assert (PI * (216 * (V * V)) <= PI * (A * A * A))
      by (apply Rmult_le_compat_l; lra).
    lra. }
  assert (Hc0 : 0 < 36 * PI * (V * V) / (A * A * A)).
  { apply Rdiv_lt_0_compat; [|exact A3].
    apply Rmult_lt_0_compat; [lra|exact V2]. }
  split; [unfold self; now rewrite init_getVolume|].
  split; [unfold self in *; now rewrite <- init_SurfaceArea|].
  split.
  - apply compactness2_value; try assumption; now (rewrite HV || rewrite HA).
  - split; [field; lra|]. split; [lra|]. split; lra.
Qed.

Lemma compactness2_in_unit_interval_witness :
  let self := init (1, 1, 1) (Examples.cube3 (Int 16)) in
  exists V A c,
    getVolumeFeatureValue self = Num Python (Finite V) /\
    getSurfaceAreaFeatureValue self = Num Numpy64 (Finite A) /\
    Outcome.returns (getCompactness2FeatureValue self) c /\
    c = 36 * PI * V ^ 2 / A ^ 3 /\
    0 < c <= 1 /\ c <> 1 /\ c <= PI / 6.
Proof.
  apply (compactness2_in_unit_interval 1 1 1 (Examples.cube3 (Int 16))).
  - lra.
  - lra.
  - lra.
  - reflexivity.
  - reflexivity.
  - split; [lia|reflexivity].
Defined.

End CompactnessRange.

(** ** Single voxels: what the code returns *)

Section SingleVoxels.

Local Open Scope R_scope.

Lemma unsigned_voxel_surf (ax : axis) :
  surf ax (Mask.padded (Examples.voxel (UInt 8))) = 256%Z.
Proof. destruct ax; vm_compute; reflexivity. Qed.

(** C1, at a mask stored as [uint8]. One voxel with spacing (1,1,1) has
    two exposed faces across each axis, of area 1 each: the weighted face
    count is 6.  Each of the three sums is 1 + 255 = 256, because the
    difference 0 - 1 wraps to 255, and [getSurfaceAreaFeatureValue] returns
    768. *)
Theorem surface_area_of_unsigned_voxel :
  let self := init Examples.unit_spacing (Examples.voxel (UInt 8)) in
  Mask.binary (maskArray self) /\
  Mask.faces Axis2 (maskArray self) = 2%Z /\
  Mask.faces Axis1 (maskArray self) = 2%Z /\
  Mask.faces Axis0 (maskArray self) = 2%Z /\
  getSurfaceAreaFeatureValue self = Num Numpy64 (Finite 768) /\
  getSurfaceAreaFeatureValue self
  <> Num Numpy64
       (Finite (IZR (Mask.faces Axis2 (maskArray self)) * (1 * 1)
                + IZR (Mask.faces Axis1 (maskArray self)) * (1 * 1)
                + IZR (Mask.faces Axis0 (maskArray self)) * (1 * 1))).
Proof.
  intros self.
  assert (HA : getSurfaceAreaFeatureValue self = Num Numpy64 (Finite 768)).
  { unfold self. rewrite (surface_area_value _ 1 1 1) by reflexivity.
    rewrite init_maskArray, !unsigned_voxel_surf. do 2 f_equal. lra. }
  assert (HF : forall ax, Mask.faces ax (maskArray self) = 2%Z)
    by (intros []; vm_compute; reflexivity).
  split; [vm_compute; reflexivity|].
  split; [apply HF|]. split; [apply HF|]. split; [apply HF|].
  split; [exact HA|].
  rewrite HA, !HF. intros E. injection E as E. lra.
Qed.

(** C4, at a mask stored as [uint64]. One voxel with spacing (1,1,1) is a
    non-empty binary region, and its Compactness2 should lie in (0, 1]. Along
    each line the differences are [1 - 0 = 1] and [0 - 1], which wraps to
    [2^64 - 1]; their sum wraps to 0 in the accumulator, so the surface area
    returned is 0 and [getCompactness2FeatureValue] returns infinity, which
    is no number of that interval. *)
Theorem compactness2_of_uint64_voxel :
  let self := init Examples.unit_spacing (Examples.voxel (UInt 64)) in
  Mask.binary (Examples.voxel (UInt 64)) /\
  (0 < Mask.voxels (Examples.voxel (UInt 64)))%Z /\
  getSurfaceAreaFeatureValue self = Num Numpy64 (Finite 0) /\
  getCompactness2FeatureValue self = Ok (Num Numpy64 PosInf) /\
  (forall c, ~ Outcome.returns (getCompactness2FeatureValue self) c).
Proof.
  intros self.
  assert (Hs : forall ax, surf ax (Mask.padded (Examples.voxel (UInt 64))) = 0%Z)
    by (intros []; vm_compute; reflexivity).
  assert (HA : SurfaceArea self = Num Numpy64 (Finite 0)).
  { unfold self. rewrite init_SurfaceArea.
    rewrite (surface_area_value _ 1 1 1) by reflexivity.
    rewrite init_maskArray, !Hs. do 2 f_equal. lra. }
  assert (HV : Volume self = Num Python (Finite 1)).
  { unfold self, Examples.unit_spacing. rewrite init_Volume.
    replace (Mask.voxels (Mask.padded (Examples.voxel (UInt 64)))) with 1%Z
      by (vm_compute; reflexivity).
    do 2 f_equal. lra. }
  assert (HC : getCompactness2FeatureValue self = Ok (Num Numpy64 PosInf)).
  { unfold getCompactness2FeatureValue. rewrite HV, HA.
    unfold py. rewrite pow_pos by lra. cbn [bind].
    rewrite pow_zero by lra. cbn [bind].
    unfold div, mul, pi, py. cbn [result_kind kind_of value fmul fdiv].
    pose proof PI_RGT_0 as Hpi. pose proof (Rpower_pos 1 2) as Hp.
    destruct (Req_EM_T 0 0) as [_|N]; [|lra].
    destruct (Req_EM_T (36 * PI * Rpower 1 2) 0) as [E|_]; [nra|].
    unfold is_neg. destruct (Rlt_dec (36 * PI * Rpower 1 2) 0); [nra|].
    reflexivity. }
  split; [vm_compute; reflexivity|]. split; [reflexivity|].
  split; [unfold self in *; now rewrite <- init_SurfaceArea|].
  split; [exact HC|].
  intros c [k Hk]. rewrite HC in Hk. discriminate.
Qed.

(** The bound [pi / 6] is reached: it is the value for a single cubic
    voxel. *)
Lemma compactness2_of_voxel :
  Outcome.returns
    (getCompactness2FeatureValue
       (init Examples.unit_spacing (Examples.voxel (Int 8))))
    (PI / 6).
Proof.
  set (self := init Examples.unit_spacing (Examples.voxel (Int 8))).
  assert (Hs : forall ax, surf ax (Mask.padded (Examples.voxel (Int 8))) = 2%Z)
    by (intros []; vm_compute; reflexivity).
  assert (HA : SurfaceArea self = Num Numpy64 (Finite 6)).
  { unfold self. rewrite init_SurfaceArea.
    rewrite (surface_area_value _ 1 1 1) by reflexivity.
    rewrite init_maskArray, !Hs. do 2 f_equal. lra. }
  assert (HV : Volume self = Num Python (Finite 1)).
  { unfold self, Examples.unit_spacing. rewrite init_Volume.
    replace (Mask.voxels (Mask.padded (Examples.voxel (Int 8)))) with 1%Z
      by (vm_compute; reflexivity).
    do 2 f_equal. lra. }
  replace (PI / 6) with (36 * PI * (1 * 1) / (6 * 6 * 6)) by field.
  apply compactness2_value; try lra; now (rewrite HV || rewrite HA).
Qed.

End SingleVoxels.

(** * Further properties of the feature functions *)

(** ** Relations between the descriptors *)

Section DescriptorRelations.

Local Open Scope R_scope.

Lemma Rpower_cubed (x y : R) :
  0 < x -> Rpower x y * Rpower x y * Rpower x y = Rpower x (y * 3).
Proof.
  intros Hx. rewrite <- Rpower_3 by apply Rpower_pos. apply Rpower_mult.
Qed.

Lemma sphericity_cube (V A : R) :
  0 < V -> 0 < A ->
  let s := Rpower PI (1 / 3) * Rpower (6 * V) (2 / 3) / A in
  s * s * s = 36 * PI * (V * V) / (A * A * A).
Proof.
  intros Vpos Apos s. unfold s. pose proof PI_RGT_0 as Hpi.
  pose proof (Rpower_cubed PI (1 / 3) Hpi) as Ha.
  replace (1 / 3 * 3) with 1 in Ha by field. rewrite Rpower_1 in Ha by lra.
  assert (H6 : 0 < 6 * V) by lra.
  pose proof (Rpower_cubed (6 * V) (2 / 3) H6) as Hb.
  replace (2 / 3 * 3) with 2 in Hb by field. rewrite Rpower_2 in Hb by lra.
  set (a := Rpower PI (1 / 3)) in *. set (b := Rpower (6 * V) (2 / 3)) in *.
  replace (a * b / A * (a * b / A) * (a * b / A))
    with ((a * a * a) * (b * b * b) / (A * A * A)) by (field; lra).
  rewrite Ha, Hb. field. lra.
Qed.

(** In exact arithmetic (no rounding, no overflow): the cube of what
    [getSphericityFeatureValue] returns is what
    [getCompactness2FeatureValue] returns. On doubles the two agree up to
    rounding only. *)
Theorem sphericity_cubed_is_compactness2 (self : RadiomicsShape) (V A : R) :
  value (Volume self) = Finite V ->
  value (SurfaceArea self) = Finite A ->
  0 < V -> 0 < A ->
  exists s c : R,
    Outcome.returns (getSphericityFeatureValue self) s /\
    Outcome.returns (getCompactness2FeatureValue self) c /\
    s * s * s = c.
Proof.
  intros HV HA Vpos Apos.
  exists (Rpower PI (1 / 3) * Rpower (6 * V) (2 / 3) / A).
  exists (36 * PI * (V * V) / (A * A * A)).
  split; [now apply sphericity_value|].
  split; [now apply compactness2_value|].
  now apply sphericity_cube.
Qed.

Lemma sphericity_cubed_is_compactness2_witness :
  let self := init Examples.unit_spacing (Examples.cube3 (Int 16)) in
  exists s c : R,
    Outcome.returns (getSphericityFeatureValue self) s /\
    Outcome.returns (getCompactness2FeatureValue self) c /\
    s * s * s = c.
Proof.
  intros self.
  apply (sphericity_cubed_is_compactness2 self (IZR 27 * (1 * 1 * 1))
           (IZR 18 * (1 * 1) + IZR 18 * (1 * 1) + IZR 18 * (1 * 1))).
  - reflexivity.
  - reflexivity.
  - lra.
  - lra.
Defined.

End DescriptorRelations.

(** ** Scaling the voxel spacing *)

Section Scaling.

Local Open Scope R_scope.

Lemma returns_eq (r : result num) (x y : R) :
  Outcome.returns r x -> x = y -> Outcome.returns r y.
Proof. intros H <-. exact H. Qed.

(** With all three spacings multiplied by [t], the volume is multiplied
    by [t^3] and the surface area by [t^2]. *)
Lemma scaled_fields (sx sy sz t : R) (m : ndarray) (V A : R) :
  value (Volume (init (sx, sy, sz) m)) = Finite V ->
  value (SurfaceArea (init (sx, sy, sz) m)) = Finite A ->
  value (Volume (init (t * sx, t * sy, t * sz) m)) = Finite (t * t * t * V) /\
  value (SurfaceArea (init (t * sx, t * sy, t * sz) m)) = Finite (t * t * A).
Proof.
  intros HV HA. rewrite init_Volume in HV. cbn [value] in HV.
  injection HV as <-.
  rewrite init_SurfaceArea, (surface_area_value _ sx sy sz) in HA
    by reflexivity.
  rewrite init_maskArray in HA. cbn [value] in HA. injection HA as <-. split.
  - rewrite init_Volume. cbn [value]. f_equal. ring.
  - rewrite init_SurfaceArea.
    rewrite (surface_area_value _ (t * sx) (t * sy) (t * sz)) by reflexivity.
    rewrite !init_maskArray. cbn [value]. f_equal. ring.
Qed.

Lemma Rpower_scale_cube (t x y : R) :
  0 < t -> 0 < x ->
  Rpower (t * t * t * x) y = Rpower t (3 * y) * Rpower x y.
Proof.
  intros Ht Hx.
  assert (0 < t * t * t) by (repeat apply Rmult_lt_0_compat; assumption).
  rewrite <- Rpower_mult_distr by assumption.
  rewrite <- (Rpower_3 t) by assumption. now rewrite Rpower_mult.
Qed.


(** Compactness2, sphericity and spherical disproportion do not depend on
    the scale: multiplying all three spacings by [t > 0] leaves what the
    three functions return unchanged. *)
Theorem scale_invariant_descriptors
    (sx sy sz t : R) (m : ndarray) (V A : R) :
  0 < t ->
  value (Volume (init (sx, sy, sz) m)) = Finite V ->
  value (SurfaceArea (init (sx, sy, sz) m)) = Finite A ->
  0 < V -> 0 < A ->
  let self := init (sx, sy, sz) m in
  let scaled := init (t * sx, t * sy, t * sz) m in
  exists c s d : R,
    Outcome.returns (getCompactness2FeatureValue self) c /\
    Outcome.returns (getCompactness2FeatureValue scaled) c /\
    Outcome.returns (getSphericityFeatureValue self) s /\
    Outcome.returns (getSphericityFeatureValue scaled) s /\
    Outcome.returns (getSphericalDisproportionFeatureValue self) d /\
    Outcome.returns (getSphericalDisproportionFeatureValue scaled) d.
Proof.
  intros Ht HV HA Vpos Apos self scaled. pose proof PI_RGT_0 as Hpi.
  destruct (scaled_fields sx sy sz t m V A HV HA) as [HV' HA'].
  fold scaled in HV', HA'. fold self in HV, HA.
  assert (Vpos' : 0 < t * t * t * V)
    by (repeat apply Rmult_lt_0_compat; assumption).
  assert (Apos' : 0 < t * t * A)
    by (repeat apply Rmult_lt_0_compat; assumption).
  assert (T2 : Rpower t 2 = t * t) by now apply Rpower_2.
  exists (36 * PI * (V * V) / (A * A * A)).
  exists (Rpower PI (1 / 3) * Rpower (6 * V) (2 / 3) / A).
  exists (A / (4 * PI * Rpower (Rpower (3 * V / (4 * PI)) (1 / 3)) 2)).
  split; [now apply compactness2_value|]. split.
  { eapply returns_eq;
      [apply (compactness2_value scaled _ _ HV' HA' Vpos' Apos')|].
    field. lra. }
  split; [now apply sphericity_value|]. split.
  { eapply returns_eq;
      [apply (sphericity_value scaled _ _ HV' HA' Vpos' Apos')|].
    replace (6 * (t * t * t * V)) with (t * t * t * (6 * V)) by ring.
    rewrite Rpower_scale_cube by lra.
    replace (3 * (2 / 3)) with 2 by field. rewrite T2. field. lra. }
  split; [now apply disproportion_value|].
  eapply returns_eq;
    [apply (disproportion_value scaled _ _ HV' HA' Vpos')|].
  assert (Hq : 0 < 3 * V / (4 * PI)) by (apply Rdiv_lt_0_compat; lra).
  replace (3 * (t * t * t * V) / (4 * PI))
    with (t * t * t * (3 * V / (4 * PI))) by (field; lra).
  rewrite !Rpower_mult.
  rewrite Rpower_scale_cube by assumption.
  replace (3 * (1 / 3 * 2)) with 2 by field. rewrite T2.
  pose proof (Rpower_pos (3 * V / (4 * PI)) (1 / 3 * 2)).
  field. lra.
Qed.

Lemma scale_invariant_descriptors_witness :
  let self := init (1, 1, 1) (Examples.cube3 (Int 16)) in
  let scaled := init (2 * 1, 2 * 1, 2 * 1) (Examples.cube3 (Int 16)) in
  exists c s d : R,
    Outcome.returns (getCompactness2FeatureValue self) c /\
    Outcome.returns (getCompactness2FeatureValue scaled) c /\
    Outcome.returns (getSphericityFeatureValue self) s /\
    Outcome.returns (getSphericityFeatureValue scaled) s /\
    Outcome.returns (getSphericalDisproportionFeatureValue self) d /\
    Outcome.returns (getSphericalDisproportionFeatureValue scaled) d.
Proof.
  apply (scale_invariant_descriptors 1 1 1 2 (Examples.cube3 (Int 16))
           (IZR 27 * (1 * 1 * 1))
           (IZR 18 * (1 * 1) + IZR 18 * (1 * 1) + IZR 18 * (1 * 1))).
  - lra.
  - reflexivity.
  - reflexivity.
  - lra.
  - lra.
Defined.



End Scaling.

(** ** No exception from the ratio descriptors *)

Section NeverRaises.

Local Open Scope R_scope.

Lemma pow_numpy (a b : num) :
  kind_of a = Numpy64 ->
  pow a b = Ok (Num Numpy64 (fpow (value a) (value b))).
Proof. intros H. unfold pow, result_kind. rewrite H. reflexivity. Qed.

Lemma div_numpy (a b : num) :
  kind_of a = Numpy64 \/ kind_of b = Numpy64 ->
  div a b = Ok (Num Numpy64 (fdiv (value a) (value b))).
Proof.
  intros H. unfold div, result_kind.
  destruct (kind_of a), (kind_of b); try reflexivity.
  destruct H; discriminate.
Qed.

(** A Python float that is not negative, raised to a positive power: no
    exception, and the result is again finite and not negative. *)
Lemma pow_python_nonneg (x y : R) :
  0 <= x -> 0 < y ->
  exists r, 0 <= r /\
    pow (Num Python (Finite x)) (Num Python (Finite y))
    = Ok (Num Python (Finite r)).
Proof.
  intros Hx Hy. destruct Hx as [Hx| <-].
  - exists (Rpower x y). split; [left; apply Rpower_pos|].
    apply pow_pos; lra.
  - exists 0. split; [lra|]. now apply pow_zero.
Qed.

(** A root of a Python float that is not negative is at most the larger
    of 1 and that float: such a power cannot leave the range of the
    doubles. *)
Lemma python_root_in_range (x y : R) :
  0 <= x -> 0 < y <= 1 ->
  exists r, 0 <= r <= Rmax 1 x /\
    pow (Num Python (Finite x)) (Num Python (Finite y))
    = Ok (Num Python (Finite r)).
Proof.
  intros Hx [Hy0 Hy1]. destruct Hx as [Hx| <-].
  - exists (Rpower x y). split; [|apply pow_pos; lra].
    split; [left; apply Rpower_pos|].
    destruct (Rle_dec x 1) as [L|G].
    + apply Rle_trans with 1; [|apply Rmax_l].
      unfold Rpower. rewrite <- exp_0.
      destruct L as [L|E].
      * left. apply exp_increasing.
        assert (ln x < 0) by (rewrite <- ln_1; now apply ln_increasing).
        nra.
      * subst x. rewrite ln_1, Rmult_0_r. apply Rle_refl.
    + apply Rle_trans with x; [|apply Rmax_r].
      rewrite <- (Rpower_1 x) at 2 by exact Hx.
      apply Rle_Rpower; lra.
  - exists 0. split; [|now apply pow_zero].
    split; [lra|]. apply Rle_trans with 1; [lra|apply Rmax_l].
Qed.

(** So is the square of a cube root, the [R**2.0] of the spherical
    disproportion. *)
Lemma squared_cube_root_in_range (q : R) :
  0 <= q ->
  exists r r2, 0 <= r2 <= Rmax 1 q /\
    pow (Num Python (Finite q)) (Num Python (Finite (1 / 3)))
    = Ok (Num Python (Finite r)) /\
    pow (Num Python (Finite r)) (Num Python (Finite 2))
    = Ok (Num Python (Finite r2)).
Proof.
  intros Hq. destruct Hq as [Hq| <-].
  - exists (Rpower q (1 / 3)), (Rpower (Rpower q (1 / 3)) 2).
    split; [|split; apply pow_pos; solve [lra | apply Rpower_pos]].
    rewrite Rpower_mult. replace (1 / 3 * 2) with (2 / 3) by field.
    destruct (python_root_in_range q (2 / 3)) as (r & Hr & E); [lra|lra|].
    rewrite pow_pos in E by lra. injection E as <-. exact Hr.
  - exists 0, 0. split; [|split; apply pow_zero; lra].
    split; [lra|]. apply Rle_trans with 1; [lra|apply Rmax_l].
Qed.

Variable self : RadiomicsShape.
Variables V A : R.
Hypothesis Volume_python : Volume self = Num Python (Finite V).
Hypothesis SurfaceArea_numpy : SurfaceArea self = Num Numpy64 (Finite A).
Hypothesis V_nonneg : 0 <= V.

Ltac open f :=
  unfold f; rewrite ?Volume_python, ?SurfaceArea_numpy;
  unfold mul, np_sqrt, pi, py; cbn [value fmul kind_of result_kind].

Lemma ratio_returns :
  exists n, getSurfaceVolumeRatioFeatureValue self = Ok n.
Proof.
  open getSurfaceVolumeRatioFeatureValue.
  rewrite div_numpy by (now left). eexists. reflexivity.
Qed.

Lemma compactness1_returns :
  exists n, getCompactness1FeatureValue self = Ok n.
Proof.
  open getCompactness1FeatureValue.
  rewrite pow_numpy by reflexivity. cbn [bind].
  rewrite div_numpy by (now right). eexists. reflexivity.
Qed.

Lemma disproportion_returns :
  exists n, getSphericalDisproportionFeatureValue self = Ok n.
Proof.
  pose proof PI_RGT_0 as Hpi.
  open getSphericalDisproportionFeatureValue.
  erewrite div_finite; [|reflexivity|reflexivity|lra].
  cbn [bind result_kind kind_of].
  assert (Hq : 0 <= 3 * V / (4 * PI)).
  { apply Rmult_le_pos; [lra|]. left. apply Rinv_0_lt_compat. lra. }
  destruct (pow_python_nonneg _ (1 / 3) Hq) as (r & Hr & ->); [lra|].
  cbn [bind].
  destruct (pow_python_nonneg r 2 Hr) as (r2 & _ & ->); [lra|].
  cbn [bind]. rewrite div_numpy by (now left). eexists. reflexivity.
Qed.

Lemma sphericity_returns :
  exists n, getSphericityFeatureValue self = Ok n.
Proof.
  pose proof PI_RGT_0 as Hpi.
  open getSphericityFeatureValue.
  rewrite pow_pos by lra. cbn [bind].
  assert (H6 : 0 <= 6 * V) by lra.
  destruct (pow_python_nonneg _ (2 / 3) H6) as (r & _ & ->); [lra|].
  cbn [bind]. rewrite div_numpy by (now right). eexists. reflexivity.
Qed.

End NeverRaises.

Section NeverRaisesOnMasks.

Local Open Scope R_scope.

(** Whatever the mask (any shape, any element type, any content) and
    whatever the non-negative spacing, the surface to volume ratio,
    Compactness1, the spherical disproportion and the sphericity return
    and do not raise: the division is always carried out by numpy, no
    negative number is raised to a fractional power, and the Python powers
    are roots, or the square of a cube root, which stay within the range
    of their base ([python_root_in_range], [squared_cube_root_in_range]).
    Compactness2 is not among them: its [Volume**2.0] is a Python power
    that leaves the range of the doubles for a large volume. *)
Theorem root_descriptors_never_raise (sx sy sz : R) (m : ndarray) :
  0 <= sx -> 0 <= sy -> 0 <= sz ->
  let self := init (sx, sy, sz) m in
  (exists n, getSurfaceVolumeRatioFeatureValue self = Ok n) /\
  (exists n, getCompactness1FeatureValue self = Ok n) /\
  (exists n, getSphericalDisproportionFeatureValue self = Ok n) /\
  (exists n, getSphericityFeatureValue self = Ok n).
Proof.
  intros Hx Hy Hz self.
  assert (HV : Volume self
               = Num Python (Finite (IZR (Mask.voxels (Mask.padded m))
                                     * (sx * sy * sz))))
    by apply init_Volume.
  assert (HA : SurfaceArea self
               = Num Numpy64
                   (Finite (IZR (surf Axis2 (maskArray self)) * (sy * sz)
                            + IZR (surf Axis1 (maskArray self)) * (sx * sz)
                            + IZR (surf Axis0 (maskArray self)) * (sx * sy)))).
  { unfold self. rewrite init_SurfaceArea.
    now rewrite (surface_area_value _ sx sy sz). }
  assert (Hn : 0 <= IZR (Mask.voxels (Mask.padded m)) * (sx * sy * sz)).
  { apply Rmult_le_pos.
    - apply IZR_le. unfold Mask.voxels. lia.
    - repeat apply Rmult_le_pos; assumption. }
  split; [exact (ratio_returns self _ _ HV HA)|].
  split; [exact (compactness1_returns self _ _ HV HA)|].
  split; [exact (disproportion_returns self _ _ HV HA Hn)|].
  exact (sphericity_returns self _ _ HV HA Hn).
Qed.

Lemma root_descriptors_never_raise_witness :
  let self := init (1, 1, 1) (Examples.empty (UInt 8)) in
  (exists n, getSurfaceVolumeRatioFeatureValue self = Ok n) /\
  (exists n, getCompactness1FeatureValue self = Ok n) /\
  (exists n, getSphericalDisproportionFeatureValue self = Ok n) /\
  (exists n, getSphericityFeatureValue self = Ok n).
Proof.
  apply (root_descriptors_never_raise 1 1 1 (Examples.empty (UInt 8))); lra.
Defined.

End NeverRaisesOnMasks.

(** ** The diameter: when it is defined and what it bounds *)

Section DiameterBounds.

Local Open Scope R_scope.










End DiameterBounds.

Section DiameterOfRegion.

Local Open Scope R_scope.

Lemma no_voxels_no_rows (m : ndarray) :
  Mask.voxels m = 0%Z -> nonzero_indices (Mask.padded m) = [].
Proof.
  intros H. rewrite <- voxels_padded in H. unfold Mask.voxels in H.
  destruct (nonzero_indices (Mask.padded m)); [reflexivity|discriminate].
Qed.

(** [getMaximum3DDiameterFeatureValue] raises [ValueError] (from
    [numpy.min] of an empty array) exactly when the region has no voxel;
    otherwise it returns a number that is at least 1. *)
Theorem diameter_defined_iff_region (sp : R * R * R) (m : ndarray) :
  (Mask.voxels m = 0%Z /\
   getMaximum3DDiameterFeatureValue (init sp m) = Raise ValueError) \/
  ((0 < Mask.voxels m)%Z /\
   exists r, getMaximum3DDiameterFeatureValue (init sp m) = Ok r /\ 1 <= r).
Proof.
  destruct (Z.eq_dec (Mask.voxels m) 0) as [E|N].
  - left. split; [exact E|].
    unfold getMaximum3DDiameterFeatureValue.
    rewrite init_matrixCoordinates. unfold where_.
    rewrite (no_voxels_no_rows m E). reflexivity.
  - right. assert (Hv : (0 < Mask.voxels m)%Z) by (unfold Mask.voxels in *; lia).
    split; [exact Hv|].
    destruct (init_edge_rows sp m Hv) as (mins & maxs & He & Hne & _).
    unfold getMaximum3DDiameterFeatureValue. rewrite He. cbn [bind fst snd].
    destruct (diameter_loop_spec
                (map (scale (pixelSpacing (init sp m))) mins)
                (map (scale (pixelSpacing (init sp m))) maxs) 1)
      as (r & Hr & Hge & _).
    { destruct mins; [congruence|discriminate]. }
    exists r. split; assumption.
Qed.




End DiameterOfRegion.

Section FarthestPair.

Local Open Scope R_scope.

Lemma distance_at_most (p q : R * R * R) (c : R) :
  0 <= c ->
  (let '(p0, p1, p2) := p in
   let '(q0, q1, q2) := q in
   (p0 - q0) ^ 2 + (p1 - q1) ^ 2 + (p2 - q2) ^ 2 <= c * c) ->
  distance p q <= c.
Proof.
  destruct p as [[p0 p1] p2], q as [[q0 q1] q2]. intros Hc H. unfold distance.
  rewrite <- (sqrt_square c Hc). now apply sqrt_le_1_alt.
Qed.

(** For the region [Spiky.mask] with unit spacing the search returns 6, the
    distance between two opposite voxels on an axis, although two voxels of
    the region are [sqrt 48] apart. *)
Lemma spiky_diameter :
  let self := init Examples.unit_spacing Spiky.mask in
  let region := nonzero_indices (maskArray self) in
  getMaximum3DDiameterFeatureValue self = Ok 6 /\
  In (2, 2, 2)%nat region /\ In (6, 6, 6)%nat region /\
  6 < distance (scale Examples.unit_spacing (2, 2, 2)%nat)
               (scale Examples.unit_spacing (6, 6, 6)%nat).
Proof.
  intros self region.
  assert (He : edge_rows (matrixCoordinates self)
               = Ok ([(1, 4, 4); (4, 1, 4); (4, 4, 1)]%nat,
                     [(7, 4, 4); (4, 7, 4); (4, 4, 7)]%nat)).
  { unfold self. rewrite init_matrixCoordinates. vm_compute. reflexivity. }
  split; [|split; [|split]].
  - unfold getMaximum3DDiameterFeatureValue. rewrite He. cbn [bind fst snd].
    unfold self. rewrite init_pixelSpacing.
    destruct (diameter_loop_spec
                (map (scale Examples.unit_spacing)
                     [(1, 4, 4); (4, 1, 4); (4, 4, 1)]%nat)
                (map (scale Examples.unit_spacing)
                     [(7, 4, 4); (4, 7, 4); (4, 4, 7)]%nat) 1)
      as (r & Hr & Hge & Hall & Hor); [discriminate|].
    rewrite Hr. f_equal. apply Rle_antisym.
    + destruct Hor as [->|(p & q & Hp & Hq & ->)]; [lra|].
      apply distance_at_most; [lra|].
      cbn [map In] in Hp, Hq.
      destruct Hp as [<-|[<-|[<-|[]]]]; destruct Hq as [<-|[<-|[<-|[]]]];
        unfold scale, Examples.unit_spacing; simpl INR; lra.
    + assert (E : distance (scale Examples.unit_spacing (1, 4, 4)%nat)
                           (scale Examples.unit_spacing (7, 4, 4)%nat) = 6).
      { unfold distance, scale, Examples.unit_spacing. simpl INR.
        rewrite <- (sqrt_square 6) by lra. f_equal. lra. }
      rewrite <- E. apply Hall; cbn [map In]; auto.
  - unfold region, self. rewrite init_maskArray.
    apply filter_In. split; [apply in_indices; cbn; lia|reflexivity].
  - unfold region, self. rewrite init_maskArray.
    apply filter_In. split; [apply in_indices; cbn; lia|reflexivity].
  - unfold distance, scale, Examples.unit_spacing. simpl INR.
    rewrite <- (sqrt_square 6) at 1 by lra. apply sqrt_lt_1_alt. lra.
Qed.

(** The search only compares rows on a minimum bound with rows on a
    maximum bound, so [getMaximum3DDiameterFeatureValue] is not the largest
    distance between voxels of the region: there are a binary mask and two
    voxels of its region that lie farther apart than the value returned. *)
Theorem diameter_can_miss_the_farthest_pair :
  exists (sp : R * R * R) (m : ndarray) (r : R) (p q : index),
    Mask.binary m /\
    getMaximum3DDiameterFeatureValue (init sp m) = Ok r /\
    In p (nonzero_indices (maskArray (init sp m))) /\
    In q (nonzero_indices (maskArray (init sp m))) /\
    r < distance (scale sp p) (scale sp q).
Proof.
  exists Examples.unit_spacing, Spiky.mask, 6, (2, 2, 2)%nat, (6, 6, 6)%nat.
  destruct spiky_diameter as (Hr & Hp & Hq & Hd).
  split; [reflexivity|]. repeat split; assumption.
Qed.

End FarthestPair.

(** ** Sums over the adjacent pairs of a padded mask *)

Section PaddedPairs.

Import Lines.

Local Open Scope Z_scope.

Lemma padded_across (ax : axis) (m : ndarray) :
  across ax (shape (Mask.padded m))
  = (S (fst (across ax (shape m)) + 1), S (snd (across ax (shape m)) + 1)).
Proof.
  destruct (shape m) as [[d h] w] eqn:E.
  rewrite (shape_padded m d h w E). destruct ax; reflexivity.
Qed.

Lemma padded_along (ax : axis) (m : ndarray) :
  along ax (shape (Mask.padded m)) = S (along ax (shape m) + 1).
Proof.
  destruct (shape m) as [[d h] w] eqn:E.
  rewrite (shape_padded m d h w E). destruct ax; reflexivity.
Qed.

Lemma padded_line_shell (ax : axis) (m : ndarray) (u v t : nat) :
  (u = 0 \/ fst (across ax (shape m)) < u \/
   v = 0 \/ snd (across ax (shape m)) < v \/
   t = 0 \/ along ax (shape m) < t)%nat ->
  line ax (Mask.padded m) u v t = 0.
Proof.
  destruct (shape m) as [[d h] w] eqn:E. unfold line. intros H.
  destruct ax; cbn [across along fst snd place] in *;
    apply (item_padded_shell m d h w); solve [exact E | lia].
Qed.

Lemma padded_line_inner (ax : axis) (m : ndarray) (u v t : nat) :
  (u < fst (across ax (shape m)))%nat ->
  (v < snd (across ax (shape m)))%nat ->
  (t < along ax (shape m))%nat ->
  line ax (Mask.padded m) (S u) (S v) (S t) = line ax m u v t.
Proof.
  intros Hu Hv Ht. unfold line.
  pose proof (in_bounds_place ax (shape m) u v t Hu Hv Ht) as Hb.
  destruct ax; cbn [place] in *; now apply item_padded_inner.
Qed.

(** A sum over the adjacent pairs of the padded mask, written with the
    lines of the mask itself: each line gains a pair that enters it from
    the shell and a pair that leaves it into the shell. *)
Lemma sum_pairs_padded (ax : axis) (G : Z -> Z -> Z) (m : ndarray) (n : nat) :
  G 0 0 = 0 ->
  along ax (shape m) = S n ->
  list_sum (map (fun ix => G (item (Mask.padded m) ix)
                             (item (Mask.padded m) (next ax ix)))
                (indices (shorten ax (shape (Mask.padded m)))))
  = sum_n (fst (across ax (shape m))) (fun u =>
      sum_n (snd (across ax (shape m))) (fun v =>
        G 0 (line ax m u v O)
        + sum_n n (fun t => G (line ax m u v t) (line ax m u v (S t)))
        + G (line ax m u v n) 0)).
Proof.
  intros G0 Hlen.
  rewrite sum_pairs_lines, padded_across, padded_along, Hlen.
  cbn [fst snd Nat.pred].
  set (P := line ax (Mask.padded m)).
  assert (Z0 : forall u v t,
             (u = 0 \/ fst (across ax (shape m)) < u \/
              v = 0 \/ snd (across ax (shape m)) < v)%nat ->
             G (P u v t) (P u v (S t)) = 0).
  { intros u v t H. unfold P.
    rewrite !padded_line_shell by tauto. exact G0. }
  rewrite sum_n_shell.
  - apply sum_n_ext. intros u Hu. rewrite sum_n_shell.
    + apply sum_n_ext. intros v Hv.
      replace (S n + 1)%nat with (S (S n)) by lia.
      rewrite sum_n_first. cbn [sum_n].
      assert (P0 : P (S u) (S v) O = 0)
        by (unfold P; apply padded_line_shell; tauto).
      assert (P1 : P (S u) (S v) 1%nat = line ax m u v O)
        by (unfold P; apply padded_line_inner; lia).
      assert (Pn : P (S u) (S v) (S n) = line ax m u v n)
        by (unfold P; apply padded_line_inner; lia).
      assert (Pl : P (S u) (S v) (S (S n)) = 0)
        by (unfold P; apply padded_line_shell; lia).
      rewrite P0, P1, Pn, Pl.
      assert (E : sum_n n (fun i => G (P (S u) (S v) (S i))
                                      (P (S u) (S v) (S (S i))))
                  = sum_n n (fun t => G (line ax m u v t)
                                        (line ax m u v (S t)))).
      { apply sum_n_ext. intros t Ht. unfold P.
        now rewrite !padded_line_inner by lia. }
      rewrite E. ring.
    + apply sum_n_all_zero. intros t. apply Z0. lia.
    + apply sum_n_all_zero. intros t. apply Z0. lia.
  - apply sum_n_all_zero. intros v. apply sum_n_all_zero. intros t.
    apply Z0. lia.
  - apply sum_n_all_zero. intros v. apply sum_n_all_zero. intros t.
    apply Z0. lia.
Qed.

Lemma sum_n_const (n : nat) (c : Z) :
  sum_n n (fun _ => c) = Z.of_nat n * c.
Proof. induction n as [|n IH]; cbn [sum_n]; lia. Qed.

End PaddedPairs.

(** ** A mask that is true everywhere *)

Section FullBox.

Import Lines.

Local Open Scope Z_scope.

Lemma faces_sum (ax : axis) (a : ndarray) :
  Mask.faces ax a
  = list_sum (map (fun ix => indicator (Mask.differ (item a ix)
                                                      (item a (next ax ix))))
                  (indices (shorten ax (shape a)))).
Proof.
  unfold Mask.faces, Mask.count_pairs, Mask.pairs.
  now rewrite <- list_sum_indicator.
Qed.

(** Every line of the box is entered once and left once. *)
Lemma box_faces (t : dtype) (sh : index) (ax : axis) (n : nat) :
  along ax sh = S n ->
  Mask.faces ax (Mask.padded (Box.ones t sh))
  = 2 * (Z.of_nat (fst (across ax sh)) * Z.of_nat (snd (across ax sh))).
Proof.
  intros Hlen. rewrite faces_sum.
  rewrite (sum_pairs_padded ax (fun a b => indicator (Mask.differ a b))
             (Box.ones t sh) n); [|reflexivity|exact Hlen].
  cbn [Box.ones shape]. unfold line. cbn [Box.ones item].
  change (indicator (Mask.differ 0 1)) with 1.
  change (indicator (Mask.differ 1 0)) with 1.
  change (indicator (Mask.differ 1 1)) with 0.
  rewrite sum_n_zero, !sum_n_const. lia.
Qed.

Lemma box_voxels (t : dtype) (d h w : nat) :
  Mask.voxels (Mask.padded (Box.ones t (d, h, w))) = Z.of_nat (d * h * w).
Proof.
  rewrite voxels_padded, voxels_sum. cbn [Box.ones shape item].
  rewrite list_sum_indices.
  change (indicator (negb (1 =? 0))) with 1.
  rewrite !sum_n_const. lia.
Qed.

End FullBox.

Section FullBoxValues.

Local Open Scope R_scope.

(** For a mask of [D x H x W] voxels that is true everywhere (signed
    element type, every extent at least 1): the volume is
    [D H W sx sy sz], and the surface area is twice the sum of the three
    face areas of the box, [2 (D H sy sz + D W sx sz + H W sx sy)]. *)
Theorem box_volume_and_surface
    (bits : Z) (d h w : nat) (sx sy sz : R) :
  (2 <= bits)%Z ->
  (1 <= d)%nat -> (1 <= h)%nat -> (1 <= w)%nat ->
  (Z.of_nat (S (d + 1) * S (h + 1) * S (w + 1)) < 2 ^ 63)%Z ->
  let self := init (sx, sy, sz) (Box.ones (Int bits) (d, h, w)) in
  getVolumeFeatureValue self
  = Num Python (Finite (IZR (Z.of_nat (d * h * w)) * (sx * sy * sz))) /\
  getSurfaceAreaFeatureValue self
  = Num Numpy64
      (Finite (IZR (2 * (Z.of_nat d * Z.of_nat h)) * (sy * sz)
               + IZR (2 * (Z.of_nat d * Z.of_nat w)) * (sx * sz)
               + IZR (2 * (Z.of_nat h * Z.of_nat w)) * (sx * sy))).
Proof.
  intros Hb Hd Hh Hw Hs self. split.
  - unfold self. rewrite init_getVolume, init_Volume, box_voxels. reflexivity.
  - set (p := Mask.padded (Box.ones (Int bits) (d, h, w))).
    assert (Hbin : Mask.binary p).
    { apply binary_padded. apply binary_intro. intros ix _. now right. }
    assert (Hsize : (Z.of_nat (size p) < 2 ^ 63)%Z).
    { unfold size, p.
      now rewrite (shape_padded (Box.ones (Int bits) (d, h, w)) d h w eq_refl). }
    assert (Hsurf : forall ax, surf ax p = Mask.faces ax p).
    { intros ax. apply (surf_signed_exact ax p bits); try assumption.
      unfold p. now rewrite dtype_padded. }
    unfold self. rewrite (surface_area_value _ sx sy sz) by reflexivity.
    rewrite init_maskArray. fold p. rewrite !Hsurf. unfold p.
    destruct d as [|d']; [lia|]. destruct h as [|h']; [lia|].
    destruct w as [|w']; [lia|].
    rewrite (box_faces (Int bits) (S d', S h', S w') Axis2 w' eq_refl).
    rewrite (box_faces (Int bits) (S d', S h', S w') Axis1 h' eq_refl).
    rewrite (box_faces (Int bits) (S d', S h', S w') Axis0 d' eq_refl).
    reflexivity.
Qed.

Lemma box_volume_and_surface_witness :
  let self := init (1, 1, 1) (Box.ones (Int 16) (2, 3, 4)%nat) in
  getVolumeFeatureValue self
  = Num Python (Finite (IZR (Z.of_nat (2 * 3 * 4)) * (1 * 1 * 1))) /\
  getSurfaceAreaFeatureValue self
  = Num Numpy64
      (Finite (IZR (2 * (Z.of_nat 2 * Z.of_nat 3)) * (1 * 1)
               + IZR (2 * (Z.of_nat 2 * Z.of_nat 4)) * (1 * 1)
               + IZR (2 * (Z.of_nat 3 * Z.of_nat 4)) * (1 * 1))).
Proof.
  apply (box_volume_and_surface 16 2 3 4 1 1 1); lia.
Defined.

End FullBoxValues.

(** ** A mask that already has an empty border *)

Section EmptyBorder.

Import Lines.

Local Open Scope Z_scope.

Lemma surf_padded_again (ax : axis) (m : ndarray) :
  surf ax (Mask.padded (Mask.padded m)) = surf ax (Mask.padded m).
Proof.
  set (t := dtype_of m).
  set (G := fun a b : Z => wrap t (Z.abs (wrap t (b - a)))).
  assert (G0 : G 0 0 = 0).
  { unfold G. change (0 - 0) with 0. rewrite wrap_0. apply wrap_0. }
  destruct (shape m) as [[d h] w] eqn:E.
  pose proof (shape_padded m d h w E) as EP.
  assert (Hlen : exists n, along ax (shape (Mask.padded m)) = S n).
  { rewrite EP. destruct ax; cbn [along]; eexists; reflexivity. }
  destruct Hlen as [n Hn].
  rewrite !surf_unfold, !dtype_padded. fold t. f_equal.
  change (list_sum
            (map (fun ix => G (item (Mask.padded (Mask.padded m)) ix)
                              (item (Mask.padded (Mask.padded m)) (next ax ix)))
                 (indices (shorten ax (shape (Mask.padded (Mask.padded m))))))
          = list_sum
              (map (fun ix => G (item (Mask.padded m) ix)
                                (item (Mask.padded m) (next ax ix)))
                   (indices (shorten ax (shape (Mask.padded m)))))).
  rewrite (sum_pairs_padded ax G (Mask.padded m) n G0 Hn).
  rewrite (sum_pairs_lines ax G (Mask.padded m)).
  rewrite Hn. cbn [Nat.pred].
  apply sum_n_ext. intros u _. apply sum_n_ext. intros v _.
  pose proof (padded_line_first ax m u v) as F.
  pose proof (padded_line_last ax m u v) as L.
  rewrite Hn in L. cbn [Nat.pred] in L.
  rewrite F, L, G0. lia.
Qed.

End EmptyBorder.

Section EmptyBorderValues.

(** A mask that already carries an empty border of one voxel gives the
    same volume and the same surface area as the mask without it: only
    the one border that the constructor adds itself is needed. *)
Theorem empty_border_changes_nothing (sp : R * R * R) (m : ndarray) :
  getVolumeFeatureValue (init sp (Mask.padded m))
  = getVolumeFeatureValue (init sp m) /\
  getSurfaceAreaFeatureValue (init sp (Mask.padded m))
  = getSurfaceAreaFeatureValue (init sp m).
Proof.
  destruct sp as [[sx sy] sz]. split.
  - rewrite !init_getVolume, !init_Volume. now rewrite voxels_padded.
  - rewrite (surface_area_value (init (sx, sy, sz) (Mask.padded m)) sx sy sz)
      by reflexivity.
    rewrite (surface_area_value (init (sx, sy, sz) m) sx sy sz) by reflexivity.
    rewrite !init_maskArray. now rewrite !surf_padded_again.
Qed.

End EmptyBorderValues.

(** ** The range of sphericity and of spherical disproportion *)

Section SphericityRange.

Local Open Scope R_scope.



End SphericityRange.

(** ** The surface of a region against its number of voxels *)

Section FacesAndVoxels.

Import Lines.

Local Open Scope Z_scope.





(** A non-empty binary array shows at least one voxel in each of its three
    projections. *)
Lemma shadows_of_region (a : ndarray) :
  Mask.binary a -> 1 <= Mask.voxels a ->
  1 <= shadow_area Axis0 a /\ 1 <= shadow_area Axis1 a
  /\ 1 <= shadow_area Axis2 a.
Proof.
  intros Hb Hn.
  pose proof (voxels_squared_le_shadows a Hb) as H.
  pose proof (shadow_area_nonneg Axis0 a).
  pose proof (shadow_area_nonneg Axis1 a).
  pose proof (shadow_area_nonneg Axis2 a).
  assert (1 <= Mask.voxels a * Mask.voxels a) by nia.
  repeat split; nia.
Qed.

End FacesAndVoxels.

Section SurfaceAgainstVolume.

Import Lines.

Local Open Scope R_scope.



(** A non-empty binary mask whose face sums fit the accumulator has at
    least the volume and the surface area of a single voxel. *)
Theorem region_at_least_one_voxel (sx sy sz : R) (m : ndarray) :
  0 < sx -> 0 < sy -> 0 < sz ->
  Mask.binary m -> (0 < Mask.voxels m)%Z ->
  Mask.sums_fit (Mask.padded m) ->
  let self := init (sx, sy, sz) m in
  exists V A : R,
    getVolumeFeatureValue self = Num Python (Finite V) /\
    getSurfaceAreaFeatureValue self = Num Numpy64 (Finite A) /\
    sx * sy * sz <= V /\
    2 * (sy * sz) + 2 * (sx * sz) + 2 * (sx * sy) <= A.
Proof.
  intros Hx Hy Hz Hb Hv Hfit self.
  set (p := Mask.padded m) in *.
  assert (Hbp : Mask.binary p) by now apply binary_padded.
  assert (Hn : (1 <= Mask.voxels p)%Z)
    by (unfold p; rewrite voxels_padded; lia).
  destruct (shadows_of_region p Hbp Hn) as (S0 & S1 & S2).
  assert (F : forall ax, (1 <= shadow_area ax p)%Z -> 2 <= IZR (surf ax p)).
  { intros ax Hs. apply IZR_le.
    pose proof (faces_twice_shadow ax m Hb) as H1.
    pose proof (surf_at_least_faces ax m Hb Hfit) as H2.
    fold p in H1, H2. lia. }
  pose proof (F Axis0 S0) as F0. pose proof (F Axis1 S1) as F1.
  pose proof (F Axis2 S2) as F2.
  exists (IZR (Mask.voxels p) * (sx * sy * sz)).
  exists (IZR (surf Axis2 p) * (sy * sz)
          + IZR (surf Axis1 p) * (sx * sz)
          + IZR (surf Axis0 p) * (sx * sy)).
  split; [unfold self; rewrite init_getVolume; apply init_Volume|].
  split.
  { unfold self. rewrite (surface_area_value _ sx sy sz) by reflexivity.
    now rewrite init_maskArray. }
  assert (Hyz : 0 < sy * sz) by now apply Rmult_lt_0_compat.
  assert (Hxz : 0 < sx * sz) by now apply Rmult_lt_0_compat.
  assert (Hxy : 0 < sx * sy) by now apply Rmult_lt_0_compat.
  assert (Hxyz : 0 < sx * sy * sz) by now apply Rmult_lt_0_compat.
  apply IZR_le in Hn.
  split.
  - replace (sx * sy * sz) with (1 * (sx * sy * sz)) at 1 by ring.
    apply Rmult_le_compat_r; lra.
  - assert (2 * (sy * sz) <= IZR (surf Axis2 p) * (sy * sz))
      by (apply Rmult_le_compat_r; lra).
    assert (2 * (sx * sz) <= IZR (surf Axis1 p) * (sx * sz))
      by (apply Rmult_le_compat_r; lra).
    assert (2 * (sx * sy) <= IZR (surf Axis0 p) * (sx * sy))
      by (apply Rmult_le_compat_r; lra).
    lra.
Qed.

Lemma region_at_least_one_voxel_witness :
  let self := init (1, 1, 1) (Examples.cube3 (UInt 8)) in
  exists V A : R,
    getVolumeFeatureValue self = Num Python (Finite V) /\
    getSurfaceAreaFeatureValue self = Num Numpy64 (Finite A) /\
    1 * 1 * 1 <= V /\
    2 * (1 * 1) + 2 * (1 * 1) + 2 * (1 * 1) <= A.
Proof.
  apply (region_at_least_one_voxel 1 1 1 (Examples.cube3 (UInt 8))).
  - lra.
  - lra.
  - lra.
  - reflexivity.
  - reflexivity.
  - split; [lia|reflexivity].
Defined.

End SurfaceAgainstVolume.

(** ** Exchanging two axes of the image *)

Section ExchangedAxes.

Import Lines Transposed.

Local Open Scope Z_scope.

Lemma exchange_involutive {A : Type} (a1 a2 : axis) (t : A * A * A) :
  exchange a1 a2 (exchange a1 a2 t) = t.
Proof. destruct t as [[k j] i], a1, a2; reflexivity. Qed.

Lemma shorten_exchange (a1 a2 ax : axis) (sh : index) :
  shorten ax (exchange a1 a2 sh)
  = exchange a1 a2 (shorten (image a1 a2 ax) sh).
Proof. destruct sh as [[d h] w], a1, a2, ax; reflexivity. Qed.

Lemma next_exchange (a1 a2 ax : axis) (ix : index) :
  next ax (exchange a1 a2 ix) = exchange a1 a2 (next (image a1 a2 ax) ix).
Proof. destruct ix as [[k j] i], a1, a2, ax; reflexivity. Qed.

(** A sum over all indices of the exchanged shape. *)
Lemma list_sum_exchange (a1 a2 : axis) (g : index -> Z) (sh : index) :
  list_sum (map g (indices (exchange a1 a2 sh)))
  = list_sum (map (fun ix => g (exchange a1 a2 ix)) (indices sh)).
Proof.
  destruct sh as [[d h] w].
  assert (E01 : sum_n h (fun k => sum_n d (fun j => sum_n w (fun i =>
                  g (k, j, i)%nat)))
                = sum_n d (fun k => sum_n h (fun j => sum_n w (fun i =>
                    g (j, k, i)%nat))))
    by apply (sum_n_swap h d (fun k j => sum_n w (fun i => g (k, j, i)%nat))).
  assert (E12 : sum_n d (fun k => sum_n w (fun j => sum_n h (fun i =>
                  g (k, j, i)%nat)))
                = sum_n d (fun k => sum_n h (fun j => sum_n w (fun i =>
                    g (k, i, j)%nat)))).
  { apply sum_n_ext. intros k _.
    apply (sum_n_swap w h (fun j i => g (k, j, i)%nat)). }
  assert (E02 : sum_n w (fun k => sum_n h (fun j => sum_n d (fun i =>
                  g (k, j, i)%nat)))
                = sum_n d (fun k => sum_n h (fun j => sum_n w (fun i =>
                    g (i, j, k)%nat)))).
  { transitivity (sum_n w (fun k => sum_n d (fun i => sum_n h (fun j =>
                    g (k, j, i)%nat)))).
    { apply sum_n_ext. intros k _.
      apply (sum_n_swap h d (fun j i => g (k, j, i)%nat)). }
    rewrite (sum_n_swap w d (fun k i => sum_n h (fun j => g (k, j, i)%nat))).
    apply sum_n_ext. intros i _.
    apply (sum_n_swap w h (fun k j => g (k, j, i)%nat)). }
  destruct a1, a2; cbn [exchange]; rewrite !list_sum_indices;
    solve [reflexivity | exact E01 | exact E12 | exact E02].
Qed.

Lemma shape_padded_swapaxes (a1 a2 : axis) (m : ndarray) :
  shape (Mask.padded (swapaxes a1 a2 m))
  = exchange a1 a2 (shape (Mask.padded m)).
Proof.
  destruct (shape m) as [[d h] w] eqn:E.
  rewrite (shape_padded m d h w E).
  destruct a1, a2;
    (erewrite shape_padded; [|cbn [swapaxes shape]; rewrite E; reflexivity]);
    reflexivity.
Qed.

Lemma item_padded_swapaxes (a1 a2 : axis) (m : ndarray) (ix : index) :
  item (Mask.padded (swapaxes a1 a2 m)) ix
  = item (Mask.padded m) (exchange a1 a2 ix).
Proof.
  destruct (shape m) as [[d h] w] eqn:E. destruct ix as [[k j] i].
  destruct a1, a2; cbn [exchange];
    (erewrite (item_padded (swapaxes _ _ m));
       [|cbn [swapaxes shape]; rewrite E; reflexivity]);
    rewrite (item_padded m d h w) by exact E;
    cbn [swapaxes item exchange in_boundsb];
    repeat match goal with
           | |- context [(?a <? ?b)%nat] => destruct (a <? b)%nat
           | |- context [(?a <=? ?b)%nat] => destruct (a <=? b)%nat
           end; reflexivity.
Qed.

Lemma surf_swapaxes (a1 a2 ax : axis) (m : ndarray) :
  surf ax (Mask.padded (swapaxes a1 a2 m))
  = surf (image a1 a2 ax) (Mask.padded m).
Proof.
  rewrite !surf_unfold, !dtype_padded. cbn [swapaxes dtype_of]. f_equal.
  rewrite shape_padded_swapaxes, shorten_exchange, list_sum_exchange.
  apply list_sum_map_ext. intros ix _.
  rewrite !item_padded_swapaxes, next_exchange, !exchange_involutive.
  reflexivity.
Qed.

Lemma voxels_swapaxes (a1 a2 : axis) (m : ndarray) :
  Mask.voxels (Mask.padded (swapaxes a1 a2 m)) = Mask.voxels (Mask.padded m).
Proof.
  rewrite !voxels_padded, !voxels_sum. cbn [swapaxes shape item].
  rewrite list_sum_exchange. apply list_sum_map_ext. intros ix _.
  now rewrite exchange_involutive.
Qed.

End ExchangedAxes.

Section ExchangedAxesValues.

Import Transposed.

Local Open Scope R_scope.

(** Exchanging two axes of the image, that is of the mask array and of the
    spacing together, changes neither the volume nor the surface area (the
    products and sums of the spacings are taken in exact arithmetic). *)
Theorem exchanged_axes_keep_volume_and_surface
    (a1 a2 : axis) (sp : R * R * R) (m : ndarray) :
  getVolumeFeatureValue (init (spacing a1 a2 sp) (swapaxes a1 a2 m))
  = getVolumeFeatureValue (init sp m) /\
  getSurfaceAreaFeatureValue (init (spacing a1 a2 sp) (swapaxes a1 a2 m))
  = getSurfaceAreaFeatureValue (init sp m).
Proof.
  destruct sp as [[sx sy] sz]. split.
  - rewrite !init_getVolume.
    rewrite (init_Volume sx sy sz).
    destruct a1, a2; cbn [spacing exchange]; rewrite init_Volume;
      rewrite voxels_swapaxes; do 2 f_equal; ring.
  - rewrite (surface_area_value (init (sx, sy, sz) m) sx sy sz) by reflexivity.
    rewrite init_maskArray.
    destruct a1, a2; cbn [spacing exchange];
      (erewrite surface_area_value; [|reflexivity]);
      rewrite init_maskArray, !surf_swapaxes; cbn [image exchange];
      do 2 f_equal; ring.
Qed.

End ExchangedAxesValues.
